(** * solid-primitives / media: createMediaQuery and createBreakpoints

    A shallow embedding of [packages/media/src/{common,index,server}.ts].

    - Plain JavaScript objects are association lists kept in property
      creation order; [entries] is [Object.entries], which enumerates
      array-index keys first (ascending) and then the other string keys in
      creation order.  The objects the code writes to are made by [{}]
      and so inherit the ["__proto__"] accessor of [Object.prototype]: an
      assignment [o[k] = v] defines or updates an own data property, except
      that [o["__proto__"] = v] on an object without such an own property
      reaches the accessor and defines none.  Only own properties are
      modelled (the prototype that the accessor may set is never read).
    - Objects live in a heap and are passed by reference, so that aliasing
      between the caller's arguments and the returned store is visible.
    - The platform ([isServer], [window.matchMedia], MediaQueryList handles
      and their listeners) and the solid-js runtime (memo, store, effect
      queue, cleanups of the owning scope) are explicit state, threaded by a
      state-and-exception monad.  solid-js is a dependency, not part of the
      package: its primitives are modelled by what they do for this code
      (a memo is evaluated at creation, a store wraps the object it is given,
      an effect is queued until the scope is set up, cleanups run when the
      scope is disposed).
    - Properties of an observer are stated for a page that starts with any
      objects in the heap and with no handle and no listener
      ([initial h0]), followed by any sequence of events. *)

From Stdlib Require Import Ascii String NArith Lia Permutation.
From stdpp Require Import base list strings.

Open Scope string_scope.
Open Scope list_scope.

(** ** JavaScript objects *)

Abbreviation JsObject V := (list (string * V)) (only parsing).

(** The key that reaches the accessor inherited from [Object.prototype]. *)
Definition is_proto (k : string) : bool := bool_decide (k = "__proto__").

Section JsObjects.
Context {V : Type}.


(** [o[k] = v]: an existing own property is updated in place; otherwise a
    new one is created last, unless the key is ["__proto__"], which goes to
    the inherited accessor and creates no property. *)
Fixpoint obj_set (o : JsObject V) (k : string) (v : V) : JsObject V :=
  match o with
  | [] => if is_proto k then [] else [(k, v)]
  | (k', v') :: o' =>
      if decide (k = k') then (k', v) :: o' else (k', v') :: obj_set o' k v
  end.

(** Own keys in creation order. *)
Definition obj_keys (o : JsObject V) : list string := o.*1.

(** A list represents an object when no key occurs twice. *)
Definition wf_obj (o : JsObject V) : Prop := NoDup (obj_keys o).

(** The properties that survive being copied by assignment into a new
    object: all but an own ["__proto__"]. *)
Definition assignable (o : JsObject V) : JsObject V :=
  List.filter (fun kv => negb (is_proto kv.1)) o.
End JsObjects.

(** The keys among [ks] that an assignment defines on a new object. *)
Definition settable_keys (ks : list string) : list string :=
  List.filter (fun k => negb (is_proto k)) ks.

(** *** Array indices

    A property key is an array index when it is the canonical decimal
    spelling of an integer in [0, 2^32 - 2] (ECMAScript 2020,
    OrdinaryOwnPropertyKeys). *)

Definition digit_of (c : ascii) : option N :=
  let n := N_of_ascii c in
  if ((48 <=? n) && (n <=? 57))%N then Some (n - 48)%N else None.

Fixpoint digits_value (s : string) (acc : N) : option N :=
  match s with
  | EmptyString => Some acc
  | String c s' =>
      match digit_of c with
      | Some d => digits_value s' (10 * acc + d)%N
      | None => None
      end
  end.

Definition array_index (k : string) : option N :=
  match k with
  | EmptyString => None
  | String c rest =>
      if decide (c = "0"%char) then
        match rest with EmptyString => Some 0%N | _ => None end
      else
        match digits_value k 0 with
        | Some n => if (n <? 2 ^ 32 - 1)%N then Some n else None
        | None => None
        end
  end.

Definition is_named (k : string) : bool :=
  match array_index k with None => true | Some _ => false end.

Section Entries.
Context {V : Type}.

(** Properties whose key is an array index, tagged with the index. *)
Fixpoint index_props (o : JsObject V) : list (N * (string * V)) :=
  match o with
  | [] => []
  | (k, v) :: o' =>
      match array_index k with
      | Some n => (n, (k, v)) :: index_props o'
      | None => index_props o'
      end
  end.

Fixpoint insert_index (x : N * (string * V)) (l : list (N * (string * V)))
  : list (N * (string * V)) :=
  match l with
  | [] => [x]
  | y :: l' => if (x.1 <=? y.1)%N then x :: l else y :: insert_index x l'
  end.

Definition sort_index (l : list (N * (string * V))) : list (N * (string * V)) :=
  foldr insert_index [] l.

(** Properties with any other key, in creation order. *)
Definition named_props (o : JsObject V) : JsObject V :=
  List.filter (fun kv => is_named kv.1) o.

(** [Object.entries(o)] *)
Definition entries (o : JsObject V) : list (string * V) :=
  (sort_index (index_props o)).*2 ++ named_props o.
End Entries.


(** ** Values, heap and platform state *)

Inductive JsVal : Type :=
| VBool (b : bool)
| VString (s : string)
| VMql (h : nat).          (* a MediaQueryList returned by window.matchMedia *)

(** String conversion of a template-literal substitution [`${v}`]. *)
Definition to_string (v : JsVal) : string :=
  match v with
  | VString s => s
  | VBool true => "true"
  | VBool false => "false"
  | VMql _ => "[object MediaQueryList]"
  end.

(** Address of an object in the heap. *)
Abbreviation Ref := nat (only parsing).

(** The two closures the module registers as "change" listeners. *)
Inductive Callback : Type :=
| SetMatches (store : Ref) (token : string)  (* event => setMatches(token, event.matches) *)
| SetState (mql : JsVal) (signal : nat).     (* () => setState(mql.matches) *)

(** A function object: [fn_id] is its identity. *)
Record Listener : Type := mkListener { fn_id : nat; fn_body : Callback }.

(** [() => mql.removeEventListener("change", listener)] *)
Inductive Cleanup : Type :=
| RemoveListener (mql : JsVal) (listener : Listener).

Record Mql : Type := mkMql {
  media : string;
  mql_matches : bool;
  mql_listeners : list Listener
}.

(** Modelled from the spec: [BreakpointOptions] is declared in types.ts,
    which is not among the sources.  The fields are the three that the
    spec lists and that index.ts reads; an absent field is [None]. *)
Record BreakpointOptions : Type := mkOptions {
  responsiveMode : option string;
  watchChange : option bool;
  fallbackMatch : option Ref
}.

(** The function passed to [createEffect] by [createBreakpoints], with the
    variables it closes over. *)
Inductive Effect : Type :=
| WatchBreakpoints (options : BreakpointOptions) (isMqSupported : bool)
    (mqlInstances : Ref) (store : Ref).

Record State : Type := mkState {
  heap : list (JsObject JsVal);           (* plain objects *)
  mqls : list Mql;                        (* MediaQueryList handles *)
  signals : list bool;                    (* cells made by createSignal *)
  matchMedia_calls : list string;         (* arguments of window.matchMedia, oldest first *)
  added : list (nat * Listener);          (* addEventListener calls *)
  removed : list (nat * Listener);        (* removeEventListener calls *)
  effects : list Effect;                  (* effects created and not yet run *)
  cleanups : list Cleanup;                (* onCleanup callbacks of the scope *)
  next_fn : nat                           (* identity of the next closure *)
}.

Definition set_heap (s : State) (x : list (JsObject JsVal)) : State :=
  mkState x (mqls s) (signals s) (matchMedia_calls s) (added s) (removed s)
    (effects s) (cleanups s) (next_fn s).
Definition set_mqls (s : State) (x : list Mql) : State :=
  mkState (heap s) x (signals s) (matchMedia_calls s) (added s) (removed s)
    (effects s) (cleanups s) (next_fn s).
Definition set_signals (s : State) (x : list bool) : State :=
  mkState (heap s) (mqls s) x (matchMedia_calls s) (added s) (removed s)
    (effects s) (cleanups s) (next_fn s).
Definition set_matchMedia_calls (s : State) (x : list string) : State :=
  mkState (heap s) (mqls s) (signals s) x (added s) (removed s)
    (effects s) (cleanups s) (next_fn s).
Definition set_added (s : State) (x : list (nat * Listener)) : State :=
  mkState (heap s) (mqls s) (signals s) (matchMedia_calls s) x (removed s)
    (effects s) (cleanups s) (next_fn s).
Definition set_removed (s : State) (x : list (nat * Listener)) : State :=
  mkState (heap s) (mqls s) (signals s) (matchMedia_calls s) (added s) x
    (effects s) (cleanups s) (next_fn s).
Definition set_effects (s : State) (x : list Effect) : State :=
  mkState (heap s) (mqls s) (signals s) (matchMedia_calls s) (added s) (removed s)
    x (cleanups s) (next_fn s).
Definition set_cleanups (s : State) (x : list Cleanup) : State :=
  mkState (heap s) (mqls s) (signals s) (matchMedia_calls s) (added s) (removed s)
    (effects s) x (next_fn s).
Definition set_next_fn (s : State) (x : nat) : State :=
  mkState (heap s) (mqls s) (signals s) (matchMedia_calls s) (added s) (removed s)
    (effects s) (cleanups s) x.

(** A fresh page: the given objects, no handle, nothing registered. *)
Definition initial (h : list (JsObject JsVal)) : State :=
  mkState h [] [] [] [] [] [] [] 0.

(** What the code reads from its surroundings: [isServer] of solid-js/web,
    [window.matchMedia] (absent, or the evaluation of a query), and whether
    [getOwner()] finds a reactive scope. *)
Record Platform : Type := mkPlatform {
  isServer : bool;
  matchMedia : option (string -> bool);
  hasOwner : bool
}.

(** ** Computations: state and exceptions *)

Inductive JsError : Type := TypeError | ReferenceError.

Inductive Outcome (A : Type) : Type :=
| Return (a : A) (s : State)
| Throw (e : JsError).
Arguments Return {A} a s.
Arguments Throw {A} e.

Definition M (A : Type) : Type := State -> Outcome A.

Definition ret {A} (a : A) : M A := fun s => Return a s.

Definition bind {A B} (c : M A) (k : A -> M B) : M B :=
  fun s => match c s with
           | Return a s' => k a s'
           | Throw e => Throw e
           end.

Notation "'do' x <- c ; k" := (bind c (fun x => k))
  (at level 10, x name, c at level 100, k at level 200).

(** [l.forEach(f)] *)
Fixpoint forEach {A} (l : list A) (f : A -> M unit) : M unit :=
  match l with
  | [] => ret tt
  | x :: l' => do _ <- f x; forEach l' f
  end.

(** *** Objects in the heap *)

(** [{}] *)
Definition new_object : M Ref :=
  fun s => Return (length (heap s)) (set_heap s (heap s ++ [[]])).

(** [Object.entries(r)] *)
Definition get_entries (r : Ref) : M (list (string * JsVal)) :=
  fun s => match heap s !! r with
           | Some o => Return (entries o) s
           | None => Throw TypeError
           end.

(** [r[k] = v] *)
Definition set_prop (r : Ref) (k : string) (v : JsVal) : M unit :=
  fun s => match heap s !! r with
           | Some o => Return tt (set_heap s (<[r := obj_set o k v]> (heap s)))
           | None => Throw TypeError
           end.

(** *** MediaQueryList handles *)

(** [mql.matches] *)
Definition get_matches (mql : JsVal) : M bool :=
  fun s => match mql with
           | VMql h => match mqls s !! h with
                       | Some q => Return (mql_matches q) s
                       | None => Throw TypeError
                       end
           | _ => Throw TypeError
           end.

Definition has_listener (l : Listener) (ls : list Listener) : bool :=
  existsb (fun l' => Nat.eqb (fn_id l') (fn_id l)) ls.

(** [mql.addEventListener("change", l)]: a listener already present is not
    added twice. *)
Definition addEventListener (mql : JsVal) (l : Listener) : M unit :=
  fun s => match mql with
           | VMql h =>
               match mqls s !! h with
               | Some q =>
                   let ls := if has_listener l (mql_listeners q) then mql_listeners q
                             else mql_listeners q ++ [l] in
                   Return tt (set_added
                     (set_mqls s (<[h := mkMql (media q) (mql_matches q) ls]> (mqls s)))
                     (added s ++ [(h, l)]))
               | None => Throw TypeError
               end
           | _ => Throw TypeError
           end.

(** [mql.removeEventListener("change", l)] *)
Definition removeEventListener (mql : JsVal) (l : Listener) : M unit :=
  fun s => match mql with
           | VMql h =>
               match mqls s !! h with
               | Some q =>
                   let ls := List.filter (fun l' => negb (Nat.eqb (fn_id l') (fn_id l)))
                               (mql_listeners q) in
                   Return tt (set_removed
                     (set_mqls s (<[h := mkMql (media q) (mql_matches q) ls]> (mqls s)))
                     (removed s ++ [(h, l)]))
               | None => Throw TypeError
               end
           | _ => Throw TypeError
           end.

(** Evaluating a function expression makes a new function object. *)
Definition new_listener (body : Callback) : M Listener :=
  fun s => Return (mkListener (next_fn s) body) (set_next_fn s (S (next_fn s))).

(** *** solid-js *)

(** [createSignal(v)]; the result names the cell. *)
Definition createSignal (v : bool) : M nat :=
  fun s => Return (length (signals s)) (set_signals s (signals s ++ [v])).

(** The setter of a signal. *)
Definition setState (signal : nat) (v : bool) : M unit :=
  fun s => Return tt (set_signals s (<[signal := v]> (signals s))).

(** The cell that the next [createSignal] makes. *)
Definition upcoming_signal : M nat :=
  fun s => Return (length (signals s)) s.

(** [createStore(init)] wraps [init] itself: the store is the same object. *)
Definition createStore (init : Ref) : M Ref := ret init.

(** The store setter [setMatches(token, match)]. *)
Definition setMatches (store : Ref) (token : string) (b : bool) : M unit :=
  set_prop store token (VBool b).

(** [createMemo(fn)] evaluates [fn] at once and caches the result. *)
Definition createMemo {A} (fn : M A) : M A := fn.

(** [createEffect(fn)] queues [fn] until the scope has been set up. *)
Definition createEffect (e : Effect) : M unit :=
  fun s => Return tt (set_effects s (effects s ++ [e])).

(** [onCleanup(fn)] *)
Definition onCleanup (c : Cleanup) : M unit :=
  fun s => Return tt (set_cleanups s (cleanups s ++ [c])).

(** ** common.ts *)

(** [getEmptyMatchesFromBreakpoints(breakpoints)] *)
Definition getEmptyMatchesFromBreakpoints (breakpoints : Ref) : M Ref :=
  do matches <- new_object;
  do es <- get_entries breakpoints;
  do _ <- forEach es (fun '(key, _) => set_prop matches key (VBool false));
  ret matches.

(** ** index.ts *)

(** What [createMediaQuery] returns: the getter of a signal in index.ts,
    the constant function [() => false] in server.ts. *)
Inductive Accessor : Type :=
| SignalAccessor (signal : nat)
| ConstAccessor (b : bool).

(** Calling the accessor. *)
Definition read_accessor (a : Accessor) : M bool :=
  fun s => match a with
           | SignalAccessor n =>
               match signals s !! n with
               | Some b => Return b s
               | None => Throw TypeError
               end
           | ConstAccessor b => Return b s
           end.

Module Index.
Section WithPlatform.
Variable env : Platform.

(** [window.matchMedia(query)] *)
Definition window_matchMedia (query : string) : M JsVal :=
  fun s =>
    if isServer env then Throw ReferenceError
    else match matchMedia env with
         | Some eval =>
             Return (VMql (length (mqls s)))
               (set_matchMedia_calls
                  (set_mqls s (mqls s ++ [mkMql query (eval query) []]))
                  (matchMedia_calls s ++ [query]))
         | None => Throw TypeError
         end.

(** [getOwner()], as a truth value. *)
Definition getOwner : M bool := ret (hasOwner env).

Definition createMediaQuery (query : string) (fallbackState : option bool)
    (watchChange : option bool) : M Accessor :=
  let fallbackState := default false fallbackState in
  let watchChange := default true watchChange in
  (* [onChange] closes over [setState], which is bound by the last statement *)
  do state <- upcoming_signal;
  do initialState <-
    (if negb (isServer env) then
       do mql <- window_matchMedia query;
       do initialState <- get_matches mql;
       do _ <- (if watchChange then
                  do onChange <- new_listener (SetState mql state);
                  do _ <- addEventListener mql onChange;
                  do owner <- getOwner;
                  if owner then onCleanup (RemoveListener mql onChange)
                  else ret tt
                else ret tt);
       ret initialState
     else ret fallbackState);
  do state <- createSignal initialState;
  ret (SignalAccessor state).

Definition checkMqSupported : bool :=
  if isServer env then false
  else if negb (bool_decide (is_Some (matchMedia env))) then false
  else true.

(** The body of the memo [mqlInstances]. *)
Definition build_mqlInstances (breakpoints : Ref) (options : BreakpointOptions)
    (isMqSupported : bool) : M Ref :=
  do mqlInstances <- new_object;
  do _ <- (if isMqSupported then
             do es <- get_entries breakpoints;
             forEach es (fun '(token, width) =>
               let responsiveProperty :=
                 if bool_decide (responsiveMode options = Some "desktop-first")
                 then "max" else "min" in
               let mediaquery :=
                 String.append "("
                   (String.append responsiveProperty
                      (String.append "-width: " (String.append (to_string width) ")"))) in
               do instance <- window_matchMedia mediaquery;
               set_prop mqlInstances token instance)
           else ret tt);
  ret mqlInstances.

Definition getInitialMatches (breakpoints : Ref) (options : BreakpointOptions)
    (isMqSupported : bool) (mqlInstances : Ref) : M Ref :=
  if negb isMqSupported then
    match fallbackMatch options with
    | Some fallback => ret fallback
    | None => getEmptyMatchesFromBreakpoints breakpoints
    end
  else
    do matches <- new_object;
    do es <- get_entries mqlInstances;
    do _ <- forEach es (fun '(token, mql) =>
              do m <- get_matches mql;
              set_prop matches token (VBool m));
    ret matches.

Definition createBreakpoints (breakpoints : Ref) (options : BreakpointOptions)
    : M Ref :=
  let isMqSupported := checkMqSupported in
  do mqlInstances <- createMemo (build_mqlInstances breakpoints options isMqSupported);
  do init <- getInitialMatches breakpoints options isMqSupported mqlInstances;
  do matches <- createStore init;
  do _ <- createEffect (WatchBreakpoints options isMqSupported mqlInstances matches);
  ret matches.

End WithPlatform.

(** The function given to [createEffect]. *)
Definition watch_effect (options : BreakpointOptions) (isMqSupported : bool)
    (mqlInstances : Ref) (store : Ref) : M unit :=
  let shouldWatch := default true (watchChange options) in
  if negb shouldWatch || negb isMqSupported then ret tt
  else
    do es <- get_entries mqlInstances;
    forEach es (fun '(token, mql) =>
      do listener <- new_listener (SetMatches store token);
      do _ <- addEventListener mql listener;
      onCleanup (RemoveListener mql listener)).

End Index.

(** ** server.ts *)

Module Server.

Definition createMediaQuery (_query : string) (_initialState : option bool)
    (_watchChange : option bool) : M Accessor :=
  ret (ConstAccessor false).

Definition createBreakpoints (_breakpoints : Ref) (options : BreakpointOptions)
    : M Ref :=
  match fallbackMatch options with
  | Some fallback => ret fallback
  | None => getEmptyMatchesFromBreakpoints _breakpoints
  end.

End Server.

(** ** What happens around the observers *)

Inductive Event : Type :=
| Mount                       (* the scope is set up: queued effects run *)
| Change (h : nat) (b : bool) (* handle [h] reports a change, now matching [b] *)
| Dispose.                    (* the owning scope is disposed: its cleanups run,
                                 here in registration order; effects still
                                 queued are dropped *)

Definition run_effect (e : Effect) : M unit :=
  match e with
  | WatchBreakpoints options isMqSupported mqlInstances store =>
      Index.watch_effect options isMqSupported mqlInstances store
  end.

(** Calling a listener with an event whose [matches] is [b]. *)
Definition call_listener (l : Listener) (b : bool) : M unit :=
  match fn_body l with
  | SetMatches store token => setMatches store token b
  | SetState mql signal =>
      do m <- get_matches mql;
      setState signal m
  end.

Definition run_cleanup (c : Cleanup) : M unit :=
  match c with
  | RemoveListener mql listener => removeEventListener mql listener
  end.

Definition step (e : Event) : M unit :=
  fun s =>
    match e with
    | Mount => forEach (effects s) run_effect (set_effects s [])
    | Change h b =>
        match mqls s !! h with
        | Some q =>
            forEach (mql_listeners q) (fun l => call_listener l b)
              (set_mqls s (<[h := mkMql (media q) b (mql_listeners q)]> (mqls s)))
        | None => Return tt s
        end
    | Dispose =>
        forEach (cleanups s) run_cleanup (set_cleanups (set_effects s []) [])
    end.

Definition run_events (evs : list Event) : M unit := forEach evs step.

(** Contents of the object at [r]. *)
Definition read_obj (s : State) (r : Ref) : option (JsObject JsVal) := heap s !! r.

(** A breakpoint set as it sits in the heap: every width is a string. *)
Definition breakpoints_obj (B : JsObject string) : JsObject JsVal :=
  prod_map id VString <$> B.

(** A match mapping as it sits in the heap. *)
Definition matches_obj (F : JsObject bool) : JsObject JsVal :=
  prod_map id VBool <$> F.

(** ** Auxiliary predicates on enumeration order *)

(** A list of index-tagged properties is in ascending index order. *)
Fixpoint index_sorted {X : Type} (l : list (N * X)) : Prop :=
  match l with
  | [] => True
  | x :: l' => Forall (fun y => (x.1 <= y.1)%N) l' /\ index_sorted l'
  end.

(** A key list is in enumeration order: array indices first and ascending,
    then the other keys. *)
Fixpoint keys_ordered (ks : list string) : Prop :=
  match ks with
  | [] => True
  | k :: ks' =>
      match array_index k with
      | Some n =>
          Forall (fun k' => match array_index k' with
                            | Some m => (n <= m)%N
                            | None => True
                            end) ks'
      | None => Forall (fun k' => array_index k' = None) ks'
      end /\ keys_ordered ks'
  end.

(** ** The observer as a state machine

    What [createBreakpoints] leaves behind when the query facility is
    there, described by three components: the phase of the observer, the
    current match state of each handle, and the contents of the store. *)

Inductive Phase : Type :=
| Unmounted    (* the effect is queued: nothing attached yet *)
| Watching     (* one listener attached on each handle *)
| Unwatched    (* the effect ran, or was dropped, without attaching *)
| Disposed.    (* the listeners were attached and have been removed *)

Record Observer : Type := mkObserver {
  phase : Phase;
  current : list bool;          (* [matches] of the handles, in creation order *)
  mapping : JsObject JsVal      (* the store *)
}.

(** The query string of a breakpoint. *)
Definition width_query (property : string) (width : string) : string :=
  String.append "("
    (String.append property (String.append "-width: " (String.append width ")"))).

Definition responsive_property (options : BreakpointOptions) : string :=
  if bool_decide (responsiveMode options = Some "desktop-first") then "max" else "min".

(** Tokens with their query strings, in the order the handles are made. *)
Definition queries_of (options : BreakpointOptions) (B : JsObject string)
  : list (string * string) :=
  prod_map id (width_query (responsive_property options)) <$> entries B.

(** The [j]-th closure made by the effect. *)
Definition listener_of (store : Ref) (j : nat) (token : string) : Listener :=
  mkListener j (SetMatches store token).

(** The object [mqlInstances]: the handle made for each token, counted
    from [i]; the token ["__proto__"] has a handle and no entry. *)
Fixpoint instances_from (i : nat) (qs : list (string * string)) : JsObject JsVal :=
  match qs with
  | [] => []
  | (token, _) :: qs' =>
      if is_proto token then instances_from (S i) qs'
      else (token, VMql i) :: instances_from (S i) qs'
  end.

(** The handles, with their current states [bs]; when watching, each
    handle whose token has an entry carries the listener made for it, the
    listeners being numbered from [j]. *)
Fixpoint handles_from (store : Ref) (watching : bool) (j : nat)
    (qs : list (string * string)) (bs : list bool) : list Mql :=
  match qs, bs with
  | (token, q) :: qs', b :: bs' =>
      if is_proto token then mkMql q b [] :: handles_from store watching j qs' bs'
      else mkMql q b (if watching then [listener_of store j token] else [])
           :: handles_from store watching (S j) qs' bs'
  | _, _ => []
  end.

(** The registrations made by the effect: handle (counted from [i]) and
    listener (counted from [j]). *)
Fixpoint registrations_from (store : Ref) (i j : nat) (qs : list (string * string))
  : list (nat * Listener) :=
  match qs with
  | [] => []
  | (token, _) :: qs' =>
      if is_proto token then registrations_from store (S i) j qs'
      else (i, listener_of store j token) :: registrations_from store (S i) (S j) qs'
  end.

(** The first contents of the store: the state of each handle that has
    an entry in [mqlInstances]. *)
Fixpoint matches_from (qs : list (string * string)) (bs : list bool) : JsObject JsVal :=
  match qs, bs with
  | (token, _) :: qs', b :: bs' =>
      if is_proto token then matches_from qs' bs'
      else (token, VBool b) :: matches_from qs' bs'
  | _, _ => []
  end.

Definition cleanup_of (x : nat * Listener) : Cleanup := RemoveListener (VMql x.1) x.2.

Definition is_watching (p : Phase) : bool :=
  match p with Watching => true | _ => false end.

Definition was_watching (p : Phase) : bool :=
  match p with Watching | Disposed => true | _ => false end.

(** The platform state an observer in a given condition stands for, on a
    page that held the objects [h0] when [createBreakpoints] was called. *)
Definition observed (h0 : list (JsObject JsVal)) (options : BreakpointOptions)
    (qs : list (string * string)) (a : Observer) : State :=
  let mqlInstances := length h0 in
  let store := S (length h0) in
  mkState
    (h0 ++ [instances_from 0 qs; mapping a])
    (handles_from store (is_watching (phase a)) 0 qs (current a))
    []
    qs.*2
    (if was_watching (phase a) then registrations_from store 0 0 qs else [])
    (match phase a with Disposed => registrations_from store 0 0 qs | _ => [] end)
    (match phase a with
     | Unmounted => [WatchBreakpoints options true mqlInstances store]
     | _ => []
     end)
    (if is_watching (phase a) then cleanup_of <$> registrations_from store 0 0 qs else [])
    (if was_watching (phase a) then length (assignable qs) else 0).

(** One event, on the three components. *)
Definition observer_step (options : BreakpointOptions) (qs : list (string * string))
    (e : Event) (a : Observer) : Observer :=
  match e with
  | Mount =>
      match phase a with
      | Unmounted =>
          mkObserver (if default true (watchChange options) then Watching else Unwatched)
            (current a) (mapping a)
      | _ => a
      end
  | Change h b =>
      match qs !! h with
      | Some (token, _) =>
          mkObserver (phase a) (<[h := b]> (current a))
            (if is_watching (phase a) && negb (is_proto token)
             then obj_set (mapping a) token (VBool b)
             else mapping a)
      | None => a
      end
  | Dispose =>
      match phase a with
      | Unmounted => mkObserver Unwatched (current a) (mapping a)
      | Watching => mkObserver Disposed (current a) (mapping a)
      | _ => a
      end
  end.

Definition observer_run (options : BreakpointOptions) (qs : list (string * string))
    (evs : list Event) (a : Observer) : Observer :=
  foldl (fun a e => observer_step options qs e a) a evs.

(** The observer right after construction. *)
Definition observer_init (eval : string -> bool) (qs : list (string * string))
  : Observer :=
  mkObserver Unmounted (eval <$> qs.*2)
    ((fun kq => (kq.1, VBool (eval kq.2))) <$> assignable qs).

(** The all-false match mapping over a list of keys. *)
Definition all_false (ks : list string) : JsObject JsVal :=
  (fun k => (k, VBool false)) <$> ks.

(** An effect queued by [createBreakpoints] when the query facility is
    missing. *)
Definition unsupported_effect (e : Effect) : Prop :=
  match e with WatchBreakpoints _ isMqSupported _ _ => isMqSupported = false end.

#[global] Instance wf_obj_dec {V} (o : JsObject V) : Decision (wf_obj o).
Proof. unfold wf_obj. apply _. Defined.

#[global] Instance Event_eq_dec : EqDecision Event.
Proof. solve_decision. Defined.

(** An observer created in a fresh scope, followed by what happens to the
    scope and the handles afterwards. *)
Definition observe_breakpoints (env : Platform) (breakpoints : Ref)
    (options : BreakpointOptions) (evs : list Event) : M Ref :=
  do matches <- Index.createBreakpoints env breakpoints options;
  do _ <- run_events evs;
  ret matches.

(** The breakpoints and platforms of the test suite. *)
Definition test_breakpoints : JsObject string :=
  [("sm", "640px"); ("lg", "1024px"); ("xl", "1280px")].

Definition no_options : BreakpointOptions := mkOptions None None None.

Definition browser (eval : string -> bool) : Platform :=
  mkPlatform false (Some eval) true.

(** A viewport on which exactly the given queries match. *)
Definition matching (queries : list string) : string -> bool :=
  fun q => existsb (String.eqb q) queries.

Definition no_matchMedia : Platform := mkPlatform false None true.

Definition server : Platform := mkPlatform true None true.

(** The fallback of the test suite: every breakpoint matches. *)
Definition test_fallback : JsObject bool :=
  [("sm", true); ("lg", true); ("xl", true)].

Definition test_heap : list (JsObject JsVal) :=
  [breakpoints_obj test_breakpoints; matches_obj test_fallback].

(** ** A single media query as a state machine

    What [createMediaQuery] of index.ts leaves behind in a browser: one
    handle, one signal and, when watching, one listener. *)

Inductive MqPhase : Type :=
| MqWatching    (* listener attached, its removal registered with the scope *)
| MqLeaking     (* listener attached, no scope to remove it *)
| MqStatic      (* [watchChange] false: no listener *)
| MqDisposed.   (* the listener was attached and has been removed *)

Record MqObserver : Type := mkMqObserver {
  mq_phase : MqPhase;
  mq_handle : bool;     (* [matches] of the handle *)
  mq_signal : bool      (* the value the accessor reads *)
}.

(** [onChange], the first closure made on the page. *)
Definition mq_listener : Listener := mkListener 0 (SetState (VMql 0) 0).

Definition mq_listening (p : MqPhase) : bool :=
  match p with MqWatching | MqLeaking => true | _ => false end.

Definition mq_registered (p : MqPhase) : bool :=
  match p with MqStatic => false | _ => true end.

Definition mq_observed (h0 : list (JsObject JsVal)) (query : string)
    (a : MqObserver) : State :=
  mkState h0
    [mkMql query (mq_handle a) (if mq_listening (mq_phase a) then [mq_listener] else [])]
    [mq_signal a]
    [query]
    (if mq_registered (mq_phase a) then [(0, mq_listener)] else [])
    (match mq_phase a with MqDisposed => [(0, mq_listener)] | _ => [] end)
    []
    (match mq_phase a with
     | MqWatching => [RemoveListener (VMql 0) mq_listener]
     | _ => []
     end)
    (if mq_registered (mq_phase a) then 1 else 0).

Definition mq_step (e : Event) (a : MqObserver) : MqObserver :=
  match e with
  | Mount => a
  | Change 0 b =>
      mkMqObserver (mq_phase a) b
        (if mq_listening (mq_phase a) then b else mq_signal a)
  | Change (S _) _ => a
  | Dispose =>
      match mq_phase a with
      | MqWatching => mkMqObserver MqDisposed (mq_handle a) (mq_signal a)
      | _ => a
      end
  end.

Definition mq_run (evs : list Event) (a : MqObserver) : MqObserver :=
  foldl (fun a e => mq_step e a) a evs.

Definition mq_init (env : Platform) (eval : string -> bool) (query : string)
    (watchChange : option bool) : MqObserver :=
  mkMqObserver
    (if default true watchChange
     then (if hasOwner env then MqWatching else MqLeaking)
     else MqStatic)
    (eval query) (eval query).

(** The match state last reported on handle [h] by a sequence of events,
    [b0] when there was no report. *)
Definition latest (h : nat) (evs : list Event) (b0 : bool) : bool :=
  foldl (fun acc e => match e with
                      | Change h' b => if decide (h' = h) then b else acc
                      | _ => acc
                      end) b0 evs.

(** A media query created on a fresh page, followed by events. *)
Definition observe_media_query (env : Platform) (query : string)
    (fallbackState watchChange : option bool) (evs : list Event) : M Accessor :=
  do state <- Index.createMediaQuery env query fallbackState watchChange;
  do _ <- run_events evs;
  ret state.

(** A page without a reactive scope around the call. *)
Definition browser_without_owner (eval : string -> bool) : Platform :=
  mkPlatform false (Some eval) false.


(* ================================================================= *)
(** * Properties *)

(** ** Objects *)

Section ObjectFacts.
Context {V : Type}.
Implicit Types (o : JsObject V) (k : string) (v : V).

Lemma obj_set_fresh o k v :
  k ∉ obj_keys o ->
  obj_set o k v = o ++ (if is_proto k then [] else [(k, v)]).
Proof.
  induction o as [|[k' v'] o IH]; simpl; [done|].
  intros Hk. apply not_elem_of_cons in Hk as [Hne Hk].
  destruct (decide (k = k')); [done|]. by rewrite IH.
Qed.








Lemma assignable_keys o : obj_keys (assignable o) = settable_keys (obj_keys o).
Proof.
  unfold assignable, settable_keys, obj_keys.
  induction o as [|[k v] o IH]; simpl; [done|].
  destruct (is_proto k); simpl; [done|]. f_equal. exact IH.
Qed.

Lemma assignable_fmap {W} (g : V -> W) o :
  assignable (prod_map id g <$> o) = prod_map id g <$> assignable o.
Proof.
  unfold assignable. induction o as [|[k v] o IH]; simpl; [done|].
  destruct (is_proto k); simpl; [|f_equal]; exact IH.
Qed.
End ObjectFacts.



Lemma settable_keys_perm ks ks' :
  ks ≡ₚ ks' -> settable_keys ks ≡ₚ settable_keys ks'.
Proof.
  unfold settable_keys. induction 1 as [|k ks ks' _ IH|k k' ks|ks1 ks2 ks3 _ IH1 _ IH2];
    simpl.
  - done.
  - destruct (is_proto k); simpl; by rewrite IH.
  - destruct (is_proto k), (is_proto k'); simpl; try done. apply Permutation_swap.
  - by rewrite IH1.
Qed.



Lemma settable_keys_ordered ks : keys_ordered ks -> keys_ordered (settable_keys ks).
Proof.
  unfold settable_keys. induction ks as [|k ks IH]; simpl; [done|].
  intros [Hk Hks]. destruct (is_proto k); simpl; [by apply IH|].
  split; [|by apply IH].
  destruct (array_index k); apply Forall_forall; intros k' Hk';
    apply list_elem_of_In, filter_In in Hk' as [Hk' _];
    apply list_elem_of_In in Hk'; rewrite Forall_forall in Hk; by apply Hk.
Qed.

(** ** Enumeration order *)

Section EntriesFacts.
Context {V : Type}.
Implicit Types (o : JsObject V) (l : list (N * (string * V))).

Lemma insert_index_perm x l : insert_index x l ≡ₚ x :: l.
Proof.
  induction l as [|y l IH]; simpl; [done|].
  destruct (x.1 <=? y.1)%N; [done|]. rewrite IH. apply Permutation_swap.
Qed.

Lemma sort_index_perm l : sort_index l ≡ₚ l.
Proof.
  induction l as [|x l IH]; simpl; [done|].
  rewrite insert_index_perm. by rewrite IH.
Qed.

Lemma index_named_perm o : (index_props o).*2 ++ named_props o ≡ₚ o.
Proof.
  unfold named_props. induction o as [|[k v] o IH]; [done|].
  simpl. unfold is_named at 1. simpl.
  destruct (array_index k); simpl.
  - by rewrite IH.
  - rewrite <- Permutation_middle. by rewrite IH.
Qed.

Lemma entries_perm o : entries o ≡ₚ o.
Proof.
  unfold entries. rewrite sort_index_perm. apply index_named_perm.
Qed.


Lemma entries_keys_perm o : obj_keys (entries o) ≡ₚ obj_keys o.
Proof. unfold obj_keys. by rewrite entries_perm. Qed.

Lemma entries_wf o : wf_obj o -> wf_obj (entries o).
Proof. unfold wf_obj. by rewrite entries_keys_perm. Qed.

Lemma index_props_tagged o :
  Forall (fun x => array_index x.2.1 = Some x.1) (index_props o).
Proof.
  induction o as [|[k v] o IH]; simpl; [done|].
  destruct (array_index k) eqn:Hk; [|done]. by constructor.
Qed.

Lemma index_props_elem o x : x ∈ index_props o -> x.2.1 ∈ obj_keys o.
Proof.
  induction o as [|[k v] o IH]; simpl; [by intros ?%elem_of_nil|].
  destruct (array_index k).
  - intros [->|Hx]%elem_of_cons; simpl; [left|right; auto].
  - intros Hx. right. auto.
Qed.

Lemma insert_index_sorted x l : index_sorted l -> index_sorted (insert_index x l).
Proof.
  induction l as [|y l IH]; simpl; [done|].
  intros [Hy Hl]. destruct (x.1 <=? y.1)%N eqn:Hxy; simpl.
  - apply N.leb_le in Hxy. repeat split; [|done..].
    constructor; [done|]. eapply Forall_impl; [exact Hy|]. simpl. lia.
  - apply N.leb_gt in Hxy. split; [|by apply IH].
    rewrite insert_index_perm. constructor; [lia|done].
Qed.

Lemma sort_index_sorted l : index_sorted (sort_index l).
Proof.
  induction l as [|x l IH]; simpl; [done|]. by apply insert_index_sorted.
Qed.

Lemma insert_index_least x l :
  Forall (fun y => (x.1 <= y.1)%N) l -> insert_index x l = x :: l.
Proof.
  destruct l as [|y l]; simpl; [done|].
  intros [Hy _]%Forall_cons. apply N.leb_le in Hy. by rewrite Hy.
Qed.

Lemma all_named_props o :
  Forall (fun k => array_index k = None) (obj_keys o) ->
  index_props o = [] /\ named_props o = o.
Proof.
  unfold named_props. induction o as [|[k v] o IH]; [done|].
  intros H. simpl in H. apply Forall_cons in H as [Hk Ho].
  destruct (IH Ho) as [IH1 IH2].
  simpl. unfold is_named at 1. simpl. rewrite Hk. by rewrite IH1, IH2.
Qed.

(** Without array-index keys, enumeration order is creation order. *)
Lemma entries_all_named o :
  Forall (fun k => array_index k = None) (obj_keys o) -> entries o = o.
Proof.
  intros H. unfold entries. destruct (all_named_props o H) as [-> ->]. done.
Qed.

Lemma tagged_named_ordered l (nm : JsObject V) :
  Forall (fun x => array_index x.2.1 = Some x.1) l ->
  index_sorted l ->
  Forall (fun kv => array_index kv.1 = None) nm ->
  keys_ordered (obj_keys (l.*2 ++ nm)).
Proof.
  intros Htag Hsort Hnm. unfold obj_keys.
  induction l as [|x l IH]; simpl.
  - clear Htag Hsort. induction nm as [|[k v] nm IH]; simpl; [done|].
    apply Forall_cons in Hnm as [Hk Hnm]. simpl in Hk. rewrite Hk.
    split; [|by apply IH]. apply Forall_fmap. by apply Hnm.
  - apply Forall_cons in Htag as [Hx Htag]. destruct Hsort as [Hle Hsort].
    rewrite Hx. split; [|by apply IH].
    rewrite fmap_app. apply Forall_app. split.
    + rewrite Forall_fmap, Forall_fmap. rewrite Forall_forall in Hle, Htag.
      apply Forall_forall. intros y Hy. simpl.
      rewrite (Htag y Hy). by apply Hle.
    + rewrite Forall_fmap. eapply Forall_impl; [exact Hnm|].
      intros kv Hkv. simpl. by rewrite Hkv.
Qed.

Lemma entries_ordered o : keys_ordered (obj_keys (entries o)).
Proof.
  unfold entries. apply tagged_named_ordered.
  - rewrite sort_index_perm. apply index_props_tagged.
  - apply sort_index_sorted.
  - unfold named_props. apply Forall_forall.
    intros kv [_ Hkv]%list_elem_of_In%filter_In.
    unfold is_named in Hkv. by destruct (array_index kv.1).
Qed.

(** An object whose keys are already in enumeration order is enumerated
    in creation order. *)
Lemma entries_of_ordered o : keys_ordered (obj_keys o) -> entries o = o.
Proof.
  induction o as [|[k v] o IH]; [done|].
  simpl. intros [Hk Ho]. specialize (IH Ho).
  destruct (array_index k) as [n|] eqn:Hidx.
  - unfold entries, named_props. simpl. rewrite Hidx.
    unfold is_named at 1. simpl. rewrite Hidx.
    rewrite insert_index_least.
    + simpl. f_equal. exact IH.
    + rewrite sort_index_perm. apply Forall_forall. intros y Hy. simpl.
      pose proof (index_props_tagged o) as Htag. rewrite Forall_forall in Htag.
      specialize (Htag y Hy). apply index_props_elem in Hy.
      rewrite Forall_forall in Hk. specialize (Hk _ Hy). by rewrite Htag in Hk.
  - apply entries_all_named. simpl. by constructor.
Qed.
End EntriesFacts.

Lemma entries_same_keys {V W} (o : JsObject V) (o' : JsObject W) :
  obj_keys o' = obj_keys (entries o) -> entries o' = o'.
Proof.
  intros H. apply entries_of_ordered. rewrite H. apply entries_ordered.
Qed.

Lemma insert_index_fmap {V W} (g : V -> W) x (l : list (N * (string * V))) :
  insert_index (prod_map id (prod_map id g) x) (prod_map id (prod_map id g) <$> l)
  = prod_map id (prod_map id g) <$> insert_index x l.
Proof.
  induction l as [|y l IH]; simpl; [done|].
  destruct (x.1 <=? y.1)%N; simpl; [done|]. f_equal. exact IH.
Qed.

Lemma sort_index_fmap {V W} (g : V -> W) (l : list (N * (string * V))) :
  sort_index (prod_map id (prod_map id g) <$> l)
  = prod_map id (prod_map id g) <$> sort_index l.
Proof.
  induction l as [|x l IH]; [done|].
  change (insert_index (prod_map id (prod_map id g) x)
            (sort_index (prod_map id (prod_map id g) <$> l))
          = prod_map id (prod_map id g) <$> insert_index x (sort_index l)).
  rewrite IH. apply insert_index_fmap.
Qed.

(** Enumeration looks at keys only. *)
Lemma entries_fmap {V W} (g : V -> W) (o : JsObject V) :
  entries (prod_map id g <$> o) = prod_map id g <$> entries o.
Proof.
  unfold entries. rewrite fmap_app. f_equal.
  - assert (index_props (prod_map id g <$> o)
            = prod_map id (prod_map id g) <$> index_props o) as ->.
    { induction o as [|[k v] o IH]; simpl; [done|].
      destruct (array_index k); simpl; [f_equal|]; exact IH. }
    rewrite sort_index_fmap, <- !list_fmap_compose.
    apply list_fmap_ext. by intros ? [n [k v]].
  - unfold named_props. induction o as [|[k v] o IH]; simpl; [done|].
    destruct (is_named k); simpl; [f_equal|]; exact IH.
Qed.

(** ** Running the code *)

Lemma bind_Return {A B} (c : M A) (k : A -> M B) s a s' :
  c s = Return a s' -> bind c k s = k a s'.
Proof. unfold bind. by intros ->. Qed.

Lemma set_heap_id s : set_heap s (heap s) = s.
Proof. by destruct s. Qed.

Lemma set_prop_Return r k v s o :
  heap s !! r = Some o ->
  set_prop r k v s = Return tt (set_heap s (<[r := obj_set o k v]> (heap s))).
Proof. unfold set_prop. by intros ->. Qed.

Lemma get_entries_Return r s o :
  heap s !! r = Some o -> get_entries r s = Return (entries o) s.
Proof. unfold get_entries. by intros ->. Qed.

(** The loop of [getEmptyMatchesFromBreakpoints]. *)
Lemma forEach_set_false (r : Ref) (l : list (string * JsVal)) acc s :
  heap s !! r = Some acc ->
  NoDup (obj_keys acc ++ obj_keys l) ->
  forEach l (fun '(key, _) => set_prop r key (VBool false)) s
  = Return tt (set_heap s
      (<[r := acc ++ ((fun kv => (kv.1, VBool false)) <$> assignable l)]> (heap s))).
Proof.
  revert acc s. induction l as [|[k v] l IH]; intros acc s Hr Hnd.
  - simpl. unfold ret. rewrite app_nil_r, list_insert_id by done.
    by rewrite set_heap_id.
  - simpl. erewrite bind_Return; [|by apply set_prop_Return].
    unfold obj_keys in Hnd. simpl in Hnd.
    apply NoDup_app in Hnd as (Hacc & Hdisj & Hl).
    apply NoDup_cons in Hl as [Hk Hl].
    rewrite obj_set_fresh.
    2:{ intros Hin. apply (Hdisj _ Hin). by left. }
    rewrite (IH (acc ++ (if is_proto k then [] else [(k, VBool false)]))).
    + simpl. rewrite list_insert_insert_eq. rewrite <- app_assoc.
      unfold assignable. simpl. by destruct (is_proto k).
    + simpl. apply list_lookup_insert_eq. by eapply lookup_lt_Some.
    + unfold obj_keys. rewrite fmap_app. rewrite <- app_assoc.
      apply NoDup_app. split_and!; [done| |].
      * intros x Hx Hin. apply elem_of_app in Hin as [Hin|Hin].
        -- destruct (is_proto k); simpl in Hin.
           ++ by apply elem_of_nil in Hin.
           ++ apply list_elem_of_singleton in Hin as ->. apply (Hdisj _ Hx). by left.
        -- apply (Hdisj _ Hx). by right.
      * destruct (is_proto k); simpl; [done|]. by constructor.
Qed.

Lemma getEmptyMatchesFromBreakpoints_Return breakpoints s o :
  heap s !! breakpoints = Some o ->
  wf_obj o ->
  getEmptyMatchesFromBreakpoints breakpoints s
  = Return (length (heap s))
      (set_heap s
         (heap s ++ [(fun kv => (kv.1, VBool false)) <$> assignable (entries o)])).
Proof.
  intros Hbp Hwf. unfold getEmptyMatchesFromBreakpoints.
  erewrite bind_Return; [|reflexivity].
  erewrite bind_Return.
  2:{ apply get_entries_Return. simpl. rewrite lookup_app_l; [done|].
      by eapply lookup_lt_Some. }
  erewrite bind_Return.
  2:{ apply (forEach_set_false _ _ []).
      - simpl. by rewrite list_lookup_middle.
      - simpl. by apply entries_wf. }
  unfold ret. simpl. f_equal. unfold set_heap. simpl. f_equal.
  rewrite (insert_app_r_alt _ _ (length (heap s))) by done.
  by rewrite Nat.sub_diag.
Qed.

Lemma handles_from_length store w j qs bs :
  length bs = length qs -> length (handles_from store w j qs bs) = length qs.
Proof.
  revert j bs. induction qs as [|[k q] qs IH]; intros j [|b bs] Hlen; try done.
  simpl in *. destruct (is_proto k); simpl; f_equal; apply IH; lia.
Qed.

Lemma instances_from_keys i qs : obj_keys (instances_from i qs) = settable_keys qs.*1.
Proof.
  unfold settable_keys. revert i. induction qs as [|[k q] qs IH]; intros i; [done|].
  simpl. destruct (is_proto k); simpl; [|f_equal]; apply IH.
Qed.

(** The loop of the memo: one [window.matchMedia] call per entry; the
    handle is recorded under its token, unless the token is ["__proto__"]. *)
Lemma forEach_build env eval options store j (inst : Ref) (es : list (string * string))
    acc s :
  isServer env = false ->
  matchMedia env = Some eval ->
  heap s !! inst = Some acc ->
  NoDup (obj_keys acc ++ obj_keys es) ->
  let qs := prod_map id (width_query (responsive_property options)) <$> es in
  forEach (prod_map id VString <$> es) (fun '(token, width) =>
      let responsiveProperty :=
        if bool_decide (responsiveMode options = Some "desktop-first")
        then "max" else "min" in
      let mediaquery :=
        String.append "("
          (String.append responsiveProperty
             (String.append "-width: " (String.append (to_string width) ")"))) in
      do instance <- Index.window_matchMedia env mediaquery;
      set_prop inst token instance) s
  = Return tt
      (set_matchMedia_calls
         (set_mqls
            (set_heap s (<[inst := acc ++ instances_from (length (mqls s)) qs]> (heap s)))
            (mqls s ++ handles_from store false j qs (eval <$> qs.*2)))
         (matchMedia_calls s ++ qs.*2)).
Proof.
  intros Hsrv Hmm Hinst Hnd qs. subst qs.
  revert j acc s Hinst Hnd. induction es as [|[k w] es IH]; intros j acc s Hinst Hnd.
  - simpl. unfold ret. rewrite !app_nil_r, list_insert_id by done.
    by destruct s.
  - unfold obj_keys in Hnd. simpl in Hnd.
    apply NoDup_app in Hnd as (Hacc & Hdisj & Hl).
    apply NoDup_cons in Hl as [Hk Hl].
    simpl. unfold bind at 1. unfold bind at 1.
    unfold Index.window_matchMedia at 1. rewrite Hsrv, Hmm.
    unfold set_prop at 1. simpl. rewrite Hinst.
    rewrite obj_set_fresh.
    2:{ intros Hin. apply (Hdisj _ Hin). by left. }
    rewrite (IH (if is_proto k then j else S j)
               (acc ++ (if is_proto k then [] else [(k, VMql (length (mqls s)))]))).
    + simpl. rewrite list_insert_insert_eq. rewrite length_app. simpl.
      rewrite Nat.add_1_r. rewrite <- !app_assoc. simpl.
      by destruct (is_proto k).
    + simpl. apply list_lookup_insert_eq. by eapply lookup_lt_Some.
    + unfold obj_keys. rewrite fmap_app. rewrite <- app_assoc.
      apply NoDup_app. split_and!; [done| |].
      * intros x Hx Hin. apply elem_of_app in Hin as [Hin|Hin].
        -- destruct (is_proto k); simpl in Hin.
           ++ by apply elem_of_nil in Hin.
           ++ apply list_elem_of_singleton in Hin as ->. apply (Hdisj _ Hx). by left.
        -- apply (Hdisj _ Hx). by right.
      * destruct (is_proto k); simpl; [done|]. by constructor.
Qed.

(** What a handle looks like, and what a report does to the handles. *)
Lemma handles_from_lookup store (w : bool) (qs : list (string * string)) :
  forall j (bs : list bool) (h : nat) k q b,
  qs !! h = Some (k, q) ->
  bs !! h = Some b ->
  exists ls,
    handles_from store w j qs bs !! h = Some (mkMql q b ls)
    /\ (forall b', <[h := mkMql q b' ls]> (handles_from store w j qs bs)
                   = handles_from store w j qs (<[h := b']> bs))
    /\ ((w = true /\ is_proto k = false /\ exists j', ls = [listener_of store j' k])
        \/ ((w = false \/ is_proto k = true) /\ ls = [])).
Proof.
  induction qs as [|[k' q'] qs IH]; intros j [|b0 bs] h k q b Hq Hb; try done.
  destruct h as [|h]; simpl in Hq, Hb.
  - injection Hq as -> ->. injection Hb as ->. simpl.
    destruct (is_proto k) eqn:Hk.
    + exists []. split_and!; [done|done|]. right. split; [by right|done].
    + destruct w.
      * eexists. split_and!; [done|done|]. left. split_and!; [done..|by eexists].
      * exists []. split_and!; [done|done|]. right. split; [by left|done].
  - simpl. destruct (is_proto k').
    + destruct (IH j bs h k q b Hq Hb) as (ls & H1 & H2 & H3).
      exists ls. split_and!; [done| |done]. intros b'. simpl. by rewrite H2.
    + destruct (IH (S j) bs h k q b Hq Hb) as (ls & H1 & H2 & H3).
      exists ls. split_and!; [done| |done]. intros b'. simpl. by rewrite H2.
Qed.

(** The loop of [getInitialMatches]: each key of [mqlInstances] gets the
    current match state of its handle. *)
Lemma forEach_init (m : Ref) store w qs : forall i j bs pre acc s,
  length pre = i ->
  length bs = length qs ->
  mqls s = pre ++ handles_from store w j qs bs ->
  heap s !! m = Some acc ->
  NoDup (obj_keys acc ++ qs.*1) ->
  forEach (instances_from i qs) (fun '(token, mql) =>
      do mt <- get_matches mql;
      set_prop m token (VBool mt)) s
  = Return tt (set_heap s (<[m := acc ++ matches_from qs bs]> (heap s))).
Proof.
  induction qs as [|[k q] qs IH]; intros i j bs pre acc s Hpre Hlen Hmqls Hm Hnd.
  - simpl. unfold ret. destruct bs; simpl;
      rewrite app_nil_r, list_insert_id by done; by rewrite set_heap_id.
  - destruct bs as [|b bs]; [done|]. simpl in Hlen, Hnd, Hmqls.
    apply NoDup_app in Hnd as (Hacc & Hdisj & Hl).
    apply NoDup_cons in Hl as [Hk Hl].
    assert (NoDup (obj_keys acc ++ qs.*1)) as Hnd'.
    { apply NoDup_app. split_and!; [done| |done].
      intros x Hx Hin. apply (Hdisj _ Hx). by right. }
    simpl. destruct (is_proto k) eqn:Hkp.
    + apply (IH (S i) j bs (pre ++ [mkMql q b []])); try done.
      * rewrite length_app. simpl. lia.
      * lia.
      * rewrite Hmqls. by rewrite <- app_assoc.
    + simpl. unfold bind at 1. unfold bind at 1. unfold get_matches at 1.
      rewrite Hmqls. rewrite list_lookup_middle by done. simpl.
      unfold set_prop at 1. rewrite Hm.
      rewrite obj_set_fresh.
      2:{ intros Hin. apply (Hdisj _ Hin). by left. }
      rewrite Hkp.
      rewrite (IH (S i) (S j) bs
                 (pre ++ [mkMql q b (if w then [listener_of store j k] else [])])
                 (acc ++ [(k, VBool b)])).
      * simpl. rewrite list_insert_insert_eq. by rewrite <- app_assoc.
      * rewrite length_app. simpl. lia.
      * lia.
      * simpl. rewrite Hmqls. by rewrite <- app_assoc.
      * simpl. apply list_lookup_insert_eq. by eapply lookup_lt_Some.
      * unfold obj_keys. rewrite fmap_app. simpl. rewrite <- app_assoc. simpl.
        apply NoDup_app. split_and!; [done| |by constructor].
        intros x Hx. apply Hdisj. exact Hx.
Qed.

Lemma matches_from_eval (eval : string -> bool) (qs : list (string * string)) :
  matches_from qs (eval <$> qs.*2)
  = (fun kq => (kq.1, VBool (eval kq.2))) <$> assignable qs.
Proof.
  unfold assignable. induction qs as [|[k q] qs IH]; simpl; [done|].
  destruct (is_proto k); simpl; [|f_equal]; exact IH.
Qed.

Lemma queries_of_keys options B : (queries_of options B).*1 = obj_keys (entries B).
Proof.
  unfold queries_of, obj_keys. rewrite <- list_fmap_compose.
  apply list_fmap_ext. by intros ? [k w].
Qed.


Lemma checkMqSupported_true env eval :
  isServer env = false -> matchMedia env = Some eval ->
  Index.checkMqSupported env = true.
Proof.
  intros Hs Hm. unfold Index.checkMqSupported. rewrite Hs, Hm.
  rewrite bool_decide_true; [done|by eexists].
Qed.


(** Construction when the query facility is there. *)
Lemma createBreakpoints_supported env eval h0 breakpoints B options :
  isServer env = false ->
  matchMedia env = Some eval ->
  h0 !! breakpoints = Some (breakpoints_obj B) ->
  wf_obj B ->
  Index.createBreakpoints env breakpoints options (initial h0)
  = Return (S (length h0))
      (observed h0 options (queries_of options B)
         (observer_init eval (queries_of options B))).
Proof.
  intros Hsrv Hmm Hbp Hwf.
  pose proof (entries_wf B Hwf) as Hwfe.
  unfold Index.createBreakpoints, createMemo, createStore.
  rewrite (checkMqSupported_true env eval) by done.
  unfold Index.build_mqlInstances, Index.getInitialMatches. simpl negb. cbv iota.
  unfold bind at 1. unfold bind at 1. unfold new_object at 1.
  unfold bind at 1. unfold bind at 1. unfold get_entries at 1. simpl.
  rewrite lookup_app_l by (by eapply lookup_lt_Some). rewrite Hbp.
  unfold breakpoints_obj. rewrite entries_fmap.
  rewrite (forEach_build env eval options (S (length h0)) 0 _ _ []); try done.
  2:{ simpl. by rewrite list_lookup_middle. }
  simpl. unfold ret at 1. unfold ret at 1.
  fold (queries_of options B).
  unfold bind at 1. unfold bind at 1. unfold new_object at 1. simpl.
  unfold bind at 1. unfold get_entries at 1. simpl.
  rewrite (insert_app_r_alt _ _ (length h0)) by done. rewrite Nat.sub_diag. simpl.
  rewrite <- app_assoc. simpl. rewrite list_lookup_middle by done.
  rewrite entries_of_ordered.
  2:{ rewrite instances_from_keys, queries_of_keys.
      apply settable_keys_ordered, entries_ordered. }
  unfold bind at 1. rewrite !length_app. simpl length. rewrite !Nat.add_1_r.
  rewrite (forEach_init (S (length h0)) (S (length h0)) false _ 0 0
             (eval <$> (queries_of options B).*2) [] []); try done.
  - simpl. unfold ret, bind, createEffect. simpl. f_equal.
    unfold observed, set_heap. simpl. f_equal.
    rewrite matches_from_eval.
    rewrite (insert_app_r_alt _ _ (S (length h0))) by lia.
    by replace (S (length h0) - length h0) with 1 by lia.
  - by rewrite !length_fmap.
  - simpl. rewrite lookup_app_r by lia.
    by replace (S (length h0) - length h0) with 1 by lia.
  - simpl. by rewrite queries_of_keys.
Qed.

(** The loop of the effect: one listener and one cleanup per entry of
    [mqlInstances]. *)
Lemma forEach_watch store qs : forall i j bs pre s,
  length pre = i ->
  length bs = length qs ->
  next_fn s = j ->
  mqls s = pre ++ handles_from store false j qs bs ->
  forEach (instances_from i qs) (fun '(token, mql) =>
      do listener <- new_listener (SetMatches store token);
      do _ <- addEventListener mql listener;
      onCleanup (RemoveListener mql listener)) s
  = Return tt
      (mkState (heap s) (pre ++ handles_from store true j qs bs) (signals s)
         (matchMedia_calls s) (added s ++ registrations_from store i j qs)
         (removed s) (effects s)
         (cleanups s ++ (cleanup_of <$> registrations_from store i j qs))
         (j + length (assignable qs))).
Proof.
  induction qs as [|[k q] qs IH]; intros i j bs pre s Hpre Hlen Hfn Hmqls.
  - simpl. unfold ret. destruct s. simpl in *. subst.
    destruct bs; simpl; by rewrite !app_nil_r, Nat.add_0_r.
  - destruct bs as [|b bs]; [done|]. simpl in Hlen, Hmqls.
    unfold assignable. simpl. destruct (is_proto k) eqn:Hkp.
    + simpl. rewrite (IH (S i) j bs (pre ++ [mkMql q b []])); try done.
      * by rewrite <- !app_assoc.
      * rewrite length_app. simpl. lia.
      * lia.
      * rewrite Hmqls. by rewrite <- app_assoc.
    + simpl. unfold bind at 1. unfold bind at 1. unfold new_listener at 1.
      unfold bind at 1. unfold addEventListener at 1. simpl.
      rewrite Hmqls. rewrite list_lookup_middle by done. simpl.
      unfold onCleanup at 1. simpl. rewrite Hfn.
      rewrite (IH (S i) (S j) bs (pre ++ [mkMql q b [listener_of store j k]])).
      * simpl. f_equal. rewrite <- !app_assoc. simpl.
        f_equal. unfold assignable. lia.
      * rewrite length_app. simpl. lia.
      * lia.
      * done.
      * simpl. rewrite <- app_assoc. simpl.
        rewrite (insert_app_r_alt _ _ i) by lia.
        by replace (i - length pre) with 0 by lia.
Qed.

(** The cleanups of the scope, run at disposal. *)
Lemma forEach_unwatch store qs : forall i j bs pre s,
  length pre = i ->
  length bs = length qs ->
  mqls s = pre ++ handles_from store true j qs bs ->
  forEach (cleanup_of <$> registrations_from store i j qs) run_cleanup s
  = Return tt
      (set_removed (set_mqls s (pre ++ handles_from store false j qs bs))
         (removed s ++ registrations_from store i j qs)).
Proof.
  induction qs as [|[k q] qs IH]; intros i j bs pre s Hpre Hlen Hmqls.
  - simpl. unfold ret. destruct s. simpl in *. subst.
    destruct bs; simpl; by rewrite !app_nil_r.
  - destruct bs as [|b bs]; [done|]. simpl in Hlen, Hmqls.
    simpl. destruct (is_proto k) eqn:Hkp.
    + rewrite (IH (S i) j bs (pre ++ [mkMql q b []])); try done.
      * by rewrite <- !app_assoc.
      * rewrite length_app. simpl. lia.
      * lia.
      * rewrite Hmqls. by rewrite <- app_assoc.
    + simpl. unfold bind at 1. unfold removeEventListener at 1.
      rewrite Hmqls. rewrite list_lookup_middle by done. simpl.
      rewrite Nat.eqb_refl. simpl.
      rewrite (IH (S i) (S j) bs (pre ++ [mkMql q b []])).
      * simpl. unfold set_removed, set_mqls. simpl. by rewrite <- !app_assoc.
      * rewrite length_app. simpl. lia.
      * lia.
      * simpl. rewrite <- app_assoc. simpl.
        rewrite (insert_app_r_alt _ _ i) by lia.
        by replace (i - length pre) with 0 by lia.
Qed.

(** ** The platform follows the state machine *)

Lemma observer_step_length options qs e a :
  length (current (observer_step options qs e a)) = length (current a).
Proof.
  destruct e as [|h b|]; simpl.
  - by destruct (phase a).
  - destruct (qs !! h) as [[k q]|]; [|done]. simpl. apply length_insert.
  - by destruct (phase a).
Qed.

Lemma observed_heap_store h0 options qs a :
  heap (observed h0 options qs a) !! S (length h0) = Some (mapping a).
Proof.
  simpl. rewrite lookup_app_r by lia.
  by replace (S (length h0) - length h0) with 1 by lia.
Qed.

Lemma observed_heap_instances h0 options qs a :
  heap (observed h0 options qs a) !! length h0 = Some (instances_from 0 qs).
Proof. simpl. by rewrite list_lookup_middle. Qed.

Lemma step_observed h0 options qs a e :
  length (current a) = length qs ->
  keys_ordered qs.*1 ->
  step e (observed h0 options qs a)
  = Return tt (observed h0 options qs (observer_step options qs e a)).
Proof.
  intros Hlen Hord. destruct a as [p bs mo]. simpl in Hlen.
  destruct e as [|h b|].
  - (* Mount *)
    destruct p; try reflexivity.
    unfold step. simpl effects. simpl forEach. unfold bind at 1.
    unfold Index.watch_effect. simpl observer_step.
    destruct (default true (watchChange options)); [|reflexivity].
    change (negb true || negb true) with false. cbv iota.
    unfold bind at 1. erewrite get_entries_Return.
    2:{ apply (observed_heap_instances h0 options qs (mkObserver Unmounted bs mo)). }
    rewrite entries_of_ordered
      by (rewrite instances_from_keys; by apply settable_keys_ordered).
    rewrite (forEach_watch (S (length h0)) qs 0 0 bs []); try done.
  - (* Change *)
    unfold step.
    change (mqls (observed h0 options qs (mkObserver p bs mo)))
      with (handles_from (S (length h0)) (is_watching p) 0 qs bs).
    simpl observer_step.
    destruct (qs !! h) as [[k q]|] eqn:Hq.
    + destruct (lookup_lt_is_Some_2 bs h) as [b0 Hb].
      { rewrite Hlen. by eapply lookup_lt_Some. }
      destruct (handles_from_lookup (S (length h0)) (is_watching p) qs 0 bs h k q b0
                  Hq Hb) as (ls & Hl & Hins & Hls).
      rewrite Hl. simpl media. simpl mql_listeners.
      destruct Hls as [(Hw & Hk & j' & ->) | [Hcase ->]].
      * rewrite Hw, Hk. simpl andb. cbv iota.
        simpl forEach. unfold bind, call_listener, setMatches, listener_of, set_prop.
        simpl. rewrite lookup_app_r by lia.
        replace (S (length h0) - length h0) with 1 by lia. simpl.
        unfold ret. f_equal.
        rewrite (insert_app_r_alt _ _ (S (length h0))) by lia.
        replace (S (length h0) - length h0) with 1 by lia.
        unfold observed, set_heap, set_mqls. simpl.
        rewrite <- (Hins b). rewrite Hw. done.
      * assert (is_watching p && negb (is_proto k) = false) as ->.
        { destruct Hcase as [-> | ->]; [done|]. apply andb_false_r. }
        simpl forEach. unfold ret. f_equal.
        unfold observed, set_mqls. simpl. by rewrite <- (Hins b).
    + rewrite (lookup_ge_None_2 (handles_from _ _ _ _ _)); [done|].
      rewrite handles_from_length by done. by apply lookup_ge_None.
  - (* Dispose *)
    destruct p; try reflexivity.
    unfold step. simpl cleanups. simpl observer_step.
    rewrite (forEach_unwatch (S (length h0)) qs 0 0 bs []); try done.
Qed.

Lemma run_events_observed h0 options qs evs : forall a,
  length (current a) = length qs ->
  keys_ordered qs.*1 ->
  run_events evs (observed h0 options qs a)
  = Return tt (observed h0 options qs (observer_run options qs evs a)).
Proof.
  unfold run_events, observer_run.
  induction evs as [|e evs IH]; intros a Hlen Hord; [done|].
  simpl. erewrite bind_Return; [|by apply step_observed].
  apply IH; [|done]. by rewrite observer_step_length.
Qed.


Lemma queries_of_ordered options B : keys_ordered (queries_of options B).*1.
Proof. rewrite queries_of_keys. apply entries_ordered. Qed.

Lemma observer_init_length eval qs : length (current (observer_init eval qs)) = length qs.
Proof. simpl. by rewrite !length_fmap. Qed.

(** ** Without the query facility *)

Lemma forEach_unsupported effs s :
  Forall unsupported_effect effs -> forEach effs run_effect s = Return tt s.
Proof.
  induction 1 as [|[o sup i m] effs Hsup _ IH]; [done|].
  simpl in *. subst sup. unfold bind, Index.watch_effect.
  rewrite orb_true_r. exact IH.
Qed.

Lemma step_inert e s :
  mqls s = [] -> cleanups s = [] -> Forall unsupported_effect (effects s) ->
  exists effs, step e s = Return tt (set_effects s effs)
               /\ Forall unsupported_effect effs.
Proof.
  intros Hm Hc He. destruct e as [|h b|]; simpl.
  - exists []. split; [|done]. by apply forEach_unsupported.
  - exists (effects s). rewrite Hm. simpl. split; [|done]. by destruct s.
  - exists []. rewrite Hc. simpl. split; [|done]. unfold ret.
    destruct s. simpl in *. by subst.
Qed.

Lemma run_events_inert evs : forall s,
  mqls s = [] -> cleanups s = [] -> Forall unsupported_effect (effects s) ->
  exists effs, run_events evs s = Return tt (set_effects s effs).
Proof.
  unfold run_events. induction evs as [|e evs IH]; intros s Hm Hc He.
  - exists (effects s). by destruct s.
  - destruct (step_inert e s Hm Hc He) as (effs & Hstep & Heffs).
    simpl. unfold bind. rewrite Hstep.
    destruct (IH (set_effects s effs)) as [effs' Hrun]; try done.
    exists effs'. by rewrite Hrun.
Qed.

Lemma breakpoints_obj_keys B : obj_keys (breakpoints_obj B) = obj_keys B.
Proof.
  unfold obj_keys, breakpoints_obj. rewrite <- list_fmap_compose.
  apply list_fmap_ext. by intros ? [k w].
Qed.

Lemma breakpoints_obj_wf B : wf_obj B -> wf_obj (breakpoints_obj B).
Proof. unfold wf_obj. by rewrite breakpoints_obj_keys. Qed.

Lemma all_false_entries B :
  (fun kv : string * JsVal => (kv.1, VBool false))
    <$> assignable (entries (breakpoints_obj B))
  = all_false (settable_keys (obj_keys (entries B))).
Proof.
  unfold breakpoints_obj, all_false. rewrite entries_fmap, assignable_fmap.
  rewrite <- assignable_keys. unfold obj_keys.
  rewrite <- !list_fmap_compose. apply list_fmap_ext. by intros ? [k w].
Qed.

Lemma all_false_keys ks : obj_keys (all_false ks) = ks.
Proof.
  unfold obj_keys, all_false. rewrite <- list_fmap_compose.
  induction ks as [|k ks IH]; simpl; [done|]. f_equal. exact IH.
Qed.


(** Construction without the facility, a fallback being supplied. *)
Lemma createBreakpoints_unsupported_fallback env h0 breakpoints options F :
  Index.checkMqSupported env = false ->
  fallbackMatch options = Some F ->
  Index.createBreakpoints env breakpoints options (initial h0)
  = Return F
      (set_effects (set_heap (initial h0) (h0 ++ [[]]))
         [WatchBreakpoints options false (length h0) F]).
Proof.
  intros Hsup HF. unfold Index.createBreakpoints, createMemo, createStore.
  rewrite Hsup. unfold Index.build_mqlInstances, Index.getInitialMatches.
  simpl negb. cbv iota. rewrite HF. reflexivity.
Qed.

(** Construction without the facility and without a fallback. *)
Lemma createBreakpoints_unsupported_empty env h0 breakpoints B options :
  Index.checkMqSupported env = false ->
  fallbackMatch options = None ->
  h0 !! breakpoints = Some (breakpoints_obj B) ->
  wf_obj B ->
  Index.createBreakpoints env breakpoints options (initial h0)
  = Return (S (length h0))
      (set_effects
         (set_heap (initial h0)
            (h0 ++ [[]; all_false (settable_keys (obj_keys (entries B)))]))
         [WatchBreakpoints options false (length h0) (S (length h0))]).
Proof.
  intros Hsup HF Hbp Hwf. unfold Index.createBreakpoints, createMemo, createStore.
  rewrite Hsup. unfold Index.build_mqlInstances, Index.getInitialMatches.
  simpl negb. cbv iota. rewrite HF.
  unfold bind at 1. unfold bind at 1. unfold bind at 1. unfold new_object at 1.
  simpl. unfold ret at 1. unfold ret at 1. unfold bind at 1.
  rewrite (getEmptyMatchesFromBreakpoints_Return _ _ (breakpoints_obj B)).
  - rewrite all_false_entries. simpl. rewrite length_app. simpl.
    rewrite Nat.add_1_r. unfold bind, ret, createEffect. simpl.
    by rewrite <- app_assoc.
  - simpl. rewrite lookup_app_l; [done|]. by eapply lookup_lt_Some.
  - by apply breakpoints_obj_wf.
Qed.


(** ** Phases *)



(** With [watchChange: false] the observer never watches and its store
    keeps its contents. *)
Lemma observer_run_unwatched options qs evs : forall a,
  watchChange options = Some false ->
  is_watching (phase a) = false -> was_watching (phase a) = false ->
  is_watching (phase (observer_run options qs evs a)) = false
  /\ was_watching (phase (observer_run options qs evs a)) = false
  /\ mapping (observer_run options qs evs a) = mapping a.
Proof.
  intros a Hw. revert a. induction evs as [|e evs IH]; intros a H1 H2; [done|].
  change (observer_run options qs (e :: evs) a)
    with (observer_run options qs evs (observer_step options qs e a)).
  assert (is_watching (phase (observer_step options qs e a)) = false
          /\ was_watching (phase (observer_step options qs e a)) = false
          /\ mapping (observer_step options qs e a) = mapping a) as (H1' & H2' & H3').
  { destruct a as [p bs mo]. simpl in *. destruct e as [|h b|]; simpl.
    - rewrite Hw. by destruct p.
    - destruct (qs !! h) as [[k q]|]; simpl; [|done]. by rewrite H1.
    - by destruct p. }
  destruct (IH _ H1' H2') as (? & ? & ?). split_and!; [done..|congruence].
Qed.




Lemma observe_breakpoints_supported env eval h0 breakpoints B options evs :
  isServer env = false ->
  matchMedia env = Some eval ->
  h0 !! breakpoints = Some (breakpoints_obj B) ->
  wf_obj B ->
  observe_breakpoints env breakpoints options evs (initial h0)
  = Return (S (length h0))
      (observed h0 options (queries_of options B)
         (observer_run options (queries_of options B) evs
            (observer_init eval (queries_of options B)))).
Proof.
  intros Hsrv Hmm Hbp Hwf. unfold observe_breakpoints.
  erewrite bind_Return; [|by eapply createBreakpoints_supported].
  erewrite bind_Return; [done|].
  apply run_events_observed.
  - apply observer_init_length.
  - apply queries_of_ordered.
Qed.

(* ================================================================= *)
(** * The specification, property by property *)




(** The two runs of the test suite. *)
Example runs_correct_media_query :
  (exists s,
     Index.createBreakpoints (browser (matching [])) 0 no_options
       (initial [breakpoints_obj test_breakpoints]) = Return 2 s
     /\ matchMedia_calls s
        = ["(min-width: 640px)"; "(min-width: 1024px)"; "(min-width: 1280px)"])
  /\ (exists s,
     Index.createBreakpoints (browser (matching [])) 0
       (mkOptions (Some "desktop-first") None None)
       (initial [breakpoints_obj test_breakpoints]) = Return 2 s
     /\ matchMedia_calls s
        = ["(max-width: 640px)"; "(max-width: 1024px)"; "(max-width: 1280px)"]).
Proof. split; eexists; (split; [vm_compute; reflexivity|reflexivity]). Qed.





Lemma is_proto_true k : is_proto k = true -> k = "__proto__".
Proof. unfold is_proto. intros H. by apply bool_decide_eq_true in H. Qed.







Lemma all_false_Forall ks : Forall (fun kv => kv.2 = VBool false) (all_false ks).
Proof. unfold all_false. by apply Forall_fmap, Forall_true. Qed.

Lemma all_false_settable_perm (B : JsObject string) :
  obj_keys (all_false (settable_keys (obj_keys (entries B))))
  ≡ₚ settable_keys (obj_keys B).
Proof. rewrite all_false_keys. apply settable_keys_perm, entries_keys_perm. Qed.




Lemma initial_inert h0 effs :
  Forall unsupported_effect effs ->
  forall evs, exists effs',
    run_events evs (set_effects (set_heap (initial h0) h0) effs)
    = Return tt (set_effects (set_heap (initial h0) h0) effs').
Proof.
  intros He evs.
  destruct (run_events_inert evs (set_effects (set_heap (initial h0) h0) effs))
    as [effs' H]; try done.
  by exists effs'.
Qed.




Lemma createMediaQuery_server env query fallbackState watchChange s :
  isServer env = true ->
  Index.createMediaQuery env query fallbackState watchChange s
  = Return (SignalAccessor (length (signals s)))
      (set_signals s (signals s ++ [default false fallbackState])).
Proof.
  intros Hsrv. unfold Index.createMediaQuery. rewrite Hsrv. reflexivity.
Qed.

(** C4 fails on server.ts: called with the fallback [true], its
    [createMediaQuery] returns an accessor that reads [false], where the
    guarded path of index.ts, under [isServer], reads [true]. *)
Theorem server_createMediaQuery_ignores_fallback :
  (exists a s,
     Server.createMediaQuery "(max-width: 767px)" (Some true) (Some true) (initial [])
     = Return a s
     /\ read_accessor a s = Return false s)
  /\ (exists a s,
     Index.createMediaQuery server "(max-width: 767px)" (Some true) (Some true)
       (initial []) = Return a s
     /\ read_accessor a s = Return true s).
Proof. split; eexists _, _; (split; reflexivity). Qed.

(** [createMediaQuery] of index.ts has no counterpart of
    [checkMqSupported]: in a browser without [window.matchMedia] the call
    throws instead of falling back. *)
Lemma createMediaQuery_without_matchMedia env query fallbackState watchChange s :
  isServer env = false ->
  matchMedia env = None ->
  Index.createMediaQuery env query fallbackState watchChange s = Throw TypeError.
Proof.
  intros Hsrv Hmm. unfold Index.createMediaQuery. rewrite Hsrv. simpl.
  unfold bind, upcoming_signal, Index.window_matchMedia. by rewrite Hsrv, Hmm.
Qed.

(** Where [isServer] holds, [createMediaQuery] of index.ts does what is
    asked: the signal it returns holds the fallback argument ([false] by
    default) and keeps it through every later event; [window.matchMedia]
    is not called and no listener is registered. *)
Lemma createMediaQuery_on_server env h0 query fallbackState watchChange evs :
  isServer env = true ->
  exists a s s',
    Index.createMediaQuery env query fallbackState watchChange (initial h0)
    = Return a s
    /\ run_events evs s = Return tt s'
    /\ read_accessor a s = Return (default false fallbackState) s
    /\ read_accessor a s' = Return (default false fallbackState) s'
    /\ matchMedia_calls s' = [] /\ mqls s' = [] /\ added s' = [].
Proof.
  intros Hsrv.
  destruct (run_events_inert evs
              (set_signals (initial h0) [default false fallbackState]))
    as [effs Hrun]; try done.
  eexists _, _, _. split; [by apply createMediaQuery_server|].
  split; [exact Hrun|]. done.
Qed.




(** The scenario of the test suite: [sm] and [lg] fire with
    [matches: true]; three listeners are removed at disposal. *)
Example update_on_change_event :
  exists s,
    observe_breakpoints (browser (matching [])) 0 no_options
      [Mount; Change 0 true; Change 1 true; Dispose]
      (initial [breakpoints_obj test_breakpoints]) = Return 2 s
    /\ read_obj s 2 = Some [("sm", VBool true); ("lg", VBool true); ("xl", VBool false)]
    /\ length (removed s) = 3.
Proof. eexists. split; [vm_compute; reflexivity|]. done. Qed.




Lemma handles_from_unwatched store qs : forall j bs,
  Forall (fun q => mql_listeners q = []) (handles_from store false j qs bs).
Proof.
  induction qs as [|[k q] qs IH]; intros j [|b bs]; simpl; try done.
  destruct (is_proto k); (constructor; [done|]); apply IH.
Qed.







(** C7: with [watchChange: false], [createBreakpoints] registers no
    change listener, with or without the query facility, and the mapping
    keeps the contents it had at construction through every later
    event. *)
Theorem no_listener_without_watchChange env h0 breakpoints B options evs :
  watchChange options = Some false ->
  h0 !! breakpoints = Some (breakpoints_obj B) ->
  wf_obj B ->
  exists r s0 s,
    Index.createBreakpoints env breakpoints options (initial h0) = Return r s0
    /\ run_events evs s0 = Return tt s
    /\ added s0 = [] /\ added s = []
    /\ Forall (fun q => mql_listeners q = []) (mqls s)
    /\ read_obj s r = read_obj s0 r.
Proof.
  intros Hw Hbp Hwf.
  destruct (Index.checkMqSupported env) eqn:Hsup.
  - assert (isServer env = false /\ exists eval, matchMedia env = Some eval)
      as [Hsrv [eval Hmm]].
    { unfold Index.checkMqSupported in Hsup.
      destruct (isServer env); [done|]. split; [done|].
      destruct (matchMedia env) as [eval|]; [by eexists|].
      rewrite bool_decide_false in Hsup; [done|]. by intros [? ?]. }
    set (qs := queries_of options B).
    destruct (observer_run_unwatched options qs evs (observer_init eval qs))
      as (H1 & H2 & H3); [done..|].
    eexists _, _, _. split; [by eapply createBreakpoints_supported|].
    split.
    { apply run_events_observed; [apply observer_init_length|apply queries_of_ordered]. }
    fold qs. split_and!.
    + done.
    + simpl. by rewrite H2.
    + simpl. rewrite H1. apply handles_from_unwatched.
    + unfold read_obj. rewrite !observed_heap_store. by rewrite H3.
  - destruct (fallbackMatch options) as [F|] eqn:HFo.
    + destruct (initial_inert (h0 ++ [[]])
                  [WatchBreakpoints options false (length h0) F]) with (evs := evs)
        as [effs' Hrun]; [by repeat constructor|].
      eexists _, _, _. split; [by apply createBreakpoints_unsupported_fallback|].
      split; [exact Hrun|]. done.
    + destruct (initial_inert
                  (h0 ++ [[]; all_false (settable_keys (obj_keys (entries B)))])
                  [WatchBreakpoints options false (length h0) (S (length h0))])
        with (evs := evs) as [effs' Hrun]; [by repeat constructor|].
      eexists _, _, _. split; [by eapply createBreakpoints_unsupported_empty|].
      split; [exact Hrun|]. done.
Qed.

Lemma no_listener_without_watchChange_witness :
  exists r s0 s,
    Index.createBreakpoints (browser (matching [])) 0 (mkOptions None (Some false) None)
      (initial [breakpoints_obj test_breakpoints]) = Return r s0
    /\ run_events [Mount; Change 0 true; Dispose] s0 = Return tt s
    /\ added s0 = [] /\ added s = []
    /\ Forall (fun q => mql_listeners q = []) (mqls s)
    /\ read_obj s r = read_obj s0 r.
Proof.
  apply (no_listener_without_watchChange (browser (matching []))
           [breakpoints_obj test_breakpoints] 0 test_breakpoints
           (mkOptions None (Some false) None) [Mount; Change 0 true; Dispose]).
  - reflexivity.
  - reflexivity.
  - refine (bool_decide_unpack (wf_obj test_breakpoints) _). vm_compute. exact I.
Defined.




Lemma observer_run_ext o1 o2 qs evs : forall a,
  watchChange o1 = watchChange o2 ->
  observer_run o1 qs evs a = observer_run o2 qs evs a.
Proof.
  induction evs as [|e evs IH]; intros a Hw; [done|].
  change (observer_run o1 qs evs (observer_step o1 qs e a)
          = observer_run o2 qs evs (observer_step o2 qs e a)).
  rewrite IH by done. f_equal. destruct e; simpl; [|done..]. by rewrite Hw.
Qed.

(** C10: with the query facility, [options.fallbackMatch] has no
    influence: two calls whose options differ in [fallbackMatch] only
    return the same reference, with the same contents at construction and
    after any common sequence of events; handles, listeners and calls made
    agree as well. *)
Theorem fallbackMatch_unused_when_supported env eval h0 breakpoints B options F evs :
  isServer env = false ->
  matchMedia env = Some eval ->
  h0 !! breakpoints = Some (breakpoints_obj B) ->
  wf_obj B ->
  let options' := mkOptions (responsiveMode options) (watchChange options) F in
  (exists r s0 s0',
     Index.createBreakpoints env breakpoints options (initial h0) = Return r s0
     /\ Index.createBreakpoints env breakpoints options' (initial h0) = Return r s0'
     /\ is_Some (read_obj s0 r)
     /\ read_obj s0 r = read_obj s0' r)
  /\ (exists r s s',
     observe_breakpoints env breakpoints options evs (initial h0) = Return r s
     /\ observe_breakpoints env breakpoints options' evs (initial h0) = Return r s'
     /\ is_Some (read_obj s r)
     /\ read_obj s r = read_obj s' r
     /\ heap s = heap s' /\ mqls s = mqls s'
     /\ matchMedia_calls s = matchMedia_calls s'
     /\ added s = added s' /\ removed s = removed s').
Proof.
  intros Hsrv Hmm Hbp Hwf options'.
  assert (queries_of options' B = queries_of options B) as Hqs by done.
  split.
  - eexists _, _, _. split; [by eapply createBreakpoints_supported|].
    split; [by eapply createBreakpoints_supported|].
    rewrite Hqs. split; [|done]. unfold read_obj. rewrite observed_heap_store.
    by eexists.
  - eexists _, _, _. split; [by eapply observe_breakpoints_supported|].
    split; [by eapply observe_breakpoints_supported|].
    rewrite Hqs. rewrite (observer_run_ext options' options) by done.
    split_and!; try done.
    unfold read_obj. rewrite observed_heap_store. by eexists.
Qed.

Lemma fallbackMatch_unused_when_supported_witness :
  (exists r s0 s0',
     Index.createBreakpoints (browser (matching ["(min-width: 640px)"])) 0 no_options
       (initial test_heap) = Return r s0
     /\ Index.createBreakpoints (browser (matching ["(min-width: 640px)"])) 0
          (mkOptions None None (Some 1)) (initial test_heap) = Return r s0'
     /\ is_Some (read_obj s0 r)
     /\ read_obj s0 r = read_obj s0' r)
  /\ (exists r s s',
     observe_breakpoints (browser (matching ["(min-width: 640px)"])) 0 no_options
       [Mount; Change 1 true] (initial test_heap) = Return r s
     /\ observe_breakpoints (browser (matching ["(min-width: 640px)"])) 0
          (mkOptions None None (Some 1)) [Mount; Change 1 true] (initial test_heap)
        = Return r s'
     /\ is_Some (read_obj s r)
     /\ read_obj s r = read_obj s' r
     /\ heap s = heap s' /\ mqls s = mqls s'
     /\ matchMedia_calls s = matchMedia_calls s'
     /\ added s = added s' /\ removed s = removed s').
Proof.
  apply (fallbackMatch_unused_when_supported
           (browser (matching ["(min-width: 640px)"])) (matching ["(min-width: 640px)"])
           test_heap 0 test_breakpoints no_options (Some 1) [Mount; Change 1 true]).
  - reflexivity.
  - reflexivity.
  - reflexivity.
  - refine (bool_decide_unpack (wf_obj test_breakpoints) _). vm_compute. exact I.
Defined.

(* ================================================================= *)
(** * Further properties of the code *)

(** ** [createMediaQuery] in a browser *)

Lemma createMediaQuery_browser env eval h0 query fallbackState watchChange :
  isServer env = false ->
  matchMedia env = Some eval ->
  Index.createMediaQuery env query fallbackState watchChange (initial h0)
  = Return (SignalAccessor 0) (mq_observed h0 query (mq_init env eval query watchChange)).
Proof.
  intros Hsrv Hmm. unfold Index.createMediaQuery, mq_init. rewrite Hsrv. simpl negb.
  cbv iota. unfold bind at 1. unfold upcoming_signal at 1. simpl.
  unfold bind at 1. unfold bind at 1. unfold bind at 1.
  unfold Index.window_matchMedia at 1. rewrite Hsrv, Hmm. simpl.
  unfold Index.getOwner.
  destruct (default true watchChange), (hasOwner env); reflexivity.
Qed.

Lemma mq_step_observed h0 query e a :
  step e (mq_observed h0 query a) = Return tt (mq_observed h0 query (mq_step e a)).
Proof.
  destruct a as [p hm sg]. destruct e as [|[|h] b|]; destruct p; reflexivity.
Qed.

Lemma mq_run_observed h0 query evs : forall a,
  run_events evs (mq_observed h0 query a)
  = Return tt (mq_observed h0 query (mq_run evs a)).
Proof.
  unfold run_events, mq_run. induction evs as [|e evs IH]; intros a; [done|].
  simpl. erewrite bind_Return; [|apply mq_step_observed]. apply IH.
Qed.

Lemma observe_media_query_browser env eval h0 query fallbackState watchChange evs :
  isServer env = false ->
  matchMedia env = Some eval ->
  observe_media_query env query fallbackState watchChange evs (initial h0)
  = Return (SignalAccessor 0)
      (mq_observed h0 query (mq_run evs (mq_init env eval query watchChange))).
Proof.
  intros Hsrv Hmm. unfold observe_media_query.
  erewrite bind_Return; [|by apply createMediaQuery_browser].
  erewrite bind_Return; [done|]. apply mq_run_observed.
Qed.

Lemma latest_snoc h evs e b0 :
  latest h (evs ++ [e]) b0
  = match e with
    | Change h' b => if decide (h' = h) then b else latest h evs b0
    | _ => latest h evs b0
    end.
Proof. unfold latest. by rewrite foldl_app. Qed.

Lemma mq_run_snoc evs e a : mq_run (evs ++ [e]) a = mq_step e (mq_run evs a).
Proof. unfold mq_run. by rewrite foldl_app. Qed.

Lemma mq_run_app evs1 evs2 a : mq_run (evs1 ++ evs2) a = mq_run evs2 (mq_run evs1 a).
Proof. unfold mq_run. apply foldl_app. Qed.

(** The handle always holds the last reported state. *)
Lemma mq_run_handle evs a : mq_handle (mq_run evs a) = latest 0 evs (mq_handle a).
Proof.
  induction evs as [|e evs IH] using rev_ind; [done|].
  rewrite mq_run_snoc, latest_snoc. destruct e as [|[|h] b|]; simpl; try done.
  by destruct (mq_phase (mq_run evs a)).
Qed.

(** While the listener is attached, the signal follows the handle. *)
Lemma mq_run_listening evs a :
  mq_signal a = mq_handle a ->
  mq_phase a = MqLeaking \/ (mq_phase a = MqWatching /\ Dispose ∉ evs) ->
  mq_phase (mq_run evs a) = mq_phase a
  /\ mq_signal (mq_run evs a) = mq_handle (mq_run evs a).
Proof.
  intros Hsync. induction evs as [|e evs IH] using rev_ind; intros Hp; [done|].
  rewrite mq_run_snoc.
  assert (mq_phase a = MqLeaking \/ (mq_phase a = MqWatching /\ Dispose ∉ evs)) as Hp'.
  { destruct Hp as [?|[? Hd]]; [by left|right]. split; [done|].
    intros Hin. apply Hd. apply elem_of_app. by left. }
  destruct (IH Hp') as [IH1 IH2].
  destruct e as [|[|h] b|]; simpl; try done.
  - rewrite IH1. split; [done|].
    destruct Hp as [-> | [-> _]]; done.
  - destruct Hp as [Hl | [_ Hd]].
    + rewrite Hl in IH1 |- *. rewrite IH1. simpl. by split.
    + exfalso. apply Hd. apply elem_of_app. right. by left.
Qed.

(** Without a listener the signal keeps its value. *)
Lemma mq_run_not_listening evs a :
  mq_listening (mq_phase a) = false ->
  mq_phase (mq_run evs a) = mq_phase a /\ mq_signal (mq_run evs a) = mq_signal a.
Proof.
  intros Hp. induction evs as [|e evs IH] using rev_ind; [done|].
  rewrite mq_run_snoc. destruct IH as [IH1 IH2].
  destruct e as [|[|h] b|]; simpl; try done.
  - rewrite IH1, Hp. done.
  - destruct (mq_phase a) eqn:Hpa; try done; rewrite IH1; simpl; by split.
Qed.

(** X1: in a browser, [createMediaQuery] evaluates the query once and
    starts from its current match state; the fallback argument plays no
    part, and no object of the page is touched. *)
Theorem createMediaQuery_initial_state env eval h0 query fallbackState watchChange :
  isServer env = false ->
  matchMedia env = Some eval ->
  exists a s,
    Index.createMediaQuery env query fallbackState watchChange (initial h0) = Return a s
    /\ read_accessor a s = Return (eval query) s
    /\ matchMedia_calls s = [query]
    /\ (exists q, mqls s = [q] /\ media q = query /\ mql_matches q = eval query)
    /\ heap s = h0.
Proof.
  intros Hsrv Hmm. eexists _, _. split; [by apply createMediaQuery_browser|].
  split_and!; try done. by eexists.
Qed.

Lemma createMediaQuery_initial_state_witness :
  exists a s,
    Index.createMediaQuery (browser (matching ["(max-width: 767px)"]))
      "(max-width: 767px)" (Some false) None (initial []) = Return a s
    /\ read_accessor a s = Return (matching ["(max-width: 767px)"] "(max-width: 767px)") s
    /\ matchMedia_calls s = ["(max-width: 767px)"]
    /\ (exists q, mqls s = [q] /\ media q = "(max-width: 767px)"
                  /\ mql_matches q = matching ["(max-width: 767px)"] "(max-width: 767px)")
    /\ heap s = [].
Proof.
  apply (createMediaQuery_initial_state (browser (matching ["(max-width: 767px)"]))
           (matching ["(max-width: 767px)"]) [] "(max-width: 767px)" (Some false) None).
  - reflexivity.
  - reflexivity.
Defined.

(** X2: a watching media query created inside a reactive scope follows
    its handle: until the scope is disposed, after any events the accessor
    reads the match state last reported on the handle (the state at
    creation when nothing was reported), which is the handle's own
    [matches]; nothing has been removed. *)
Theorem createMediaQuery_tracks_changes env eval h0 query fallbackState watchChange evs :
  isServer env = false ->
  matchMedia env = Some eval ->
  hasOwner env = true ->
  watchChange <> Some false ->
  Dispose ∉ evs ->
  exists a s q,
    observe_media_query env query fallbackState watchChange evs (initial h0) = Return a s
    /\ read_accessor a s = Return (latest 0 evs (eval query)) s
    /\ mqls s = [q]
    /\ mql_matches q = latest 0 evs (eval query)
    /\ length (mql_listeners q) = 1
    /\ length (added s) = 1
    /\ removed s = [].
Proof.
  intros Hsrv Hmm Hown Hw Hd.
  set (a0 := mq_init env eval query watchChange).
  assert (mq_phase a0 = MqWatching) as Hp0.
  { unfold a0, mq_init. simpl. rewrite Hown. by destruct watchChange as [[]|]. }
  destruct (mq_run_listening evs a0) as [Hp Hs]; [done|by right|].
  pose proof (mq_run_handle evs a0) as Hh.
  eexists _, _, _. split; [by eapply observe_media_query_browser|].
  fold a0. rewrite Hp0 in Hp. simpl. rewrite Hp. simpl.
  split_and!; try done. by rewrite Hs, Hh.
Qed.

Lemma createMediaQuery_tracks_changes_witness :
  exists a s q,
    observe_media_query (browser (matching [])) "(max-width: 767px)" None None
      [Mount; Change 0 true; Change 0 false; Change 0 true] (initial [])
    = Return a s
    /\ read_accessor a s
       = Return (latest 0 [Mount; Change 0 true; Change 0 false; Change 0 true]
                   (matching [] "(max-width: 767px)")) s
    /\ mqls s = [q]
    /\ mql_matches q
       = latest 0 [Mount; Change 0 true; Change 0 false; Change 0 true]
           (matching [] "(max-width: 767px)")
    /\ length (mql_listeners q) = 1
    /\ length (added s) = 1
    /\ removed s = [].
Proof.
  apply (createMediaQuery_tracks_changes (browser (matching [])) (matching []) []
           "(max-width: 767px)" None None
           [Mount; Change 0 true; Change 0 false; Change 0 true]).
  - reflexivity.
  - reflexivity.
  - reflexivity.
  - discriminate.
  - refine (bool_decide_unpack
              (Dispose ∉ [Mount; Change 0 true; Change 0 false; Change 0 true]) _).
    vm_compute. exact I.
Defined.

(** X3: with [watchChange] false, [createMediaQuery] registers no
    listener and its value stays what it was at creation, whatever the
    handle reports later. *)
Theorem createMediaQuery_static_without_watch env eval h0 query fallbackState evs :
  isServer env = false ->
  matchMedia env = Some eval ->
  exists a s q,
    observe_media_query env query fallbackState (Some false) evs (initial h0)
    = Return a s
    /\ read_accessor a s = Return (eval query) s
    /\ mqls s = [q]
    /\ mql_matches q = latest 0 evs (eval query)
    /\ mql_listeners q = []
    /\ added s = [] /\ removed s = [] /\ cleanups s = [].
Proof.
  intros Hsrv Hmm.
  set (a0 := mq_init env eval query (Some false)).
  destruct (mq_run_not_listening evs a0) as [Hp Hs]; [done|].
  pose proof (mq_run_handle evs a0) as Hh.
  eexists _, _, _. split; [by eapply observe_media_query_browser|].
  fold a0. simpl. rewrite Hp. simpl. split_and!; try done. by rewrite Hs.
Qed.

Lemma createMediaQuery_static_without_watch_witness :
  exists a s q,
    observe_media_query (browser (matching [])) "(max-width: 767px)" None (Some false)
      [Mount; Change 0 true] (initial []) = Return a s
    /\ read_accessor a s = Return (matching [] "(max-width: 767px)") s
    /\ mqls s = [q]
    /\ mql_matches q = latest 0 [Mount; Change 0 true] (matching [] "(max-width: 767px)")
    /\ mql_listeners q = []
    /\ added s = [] /\ removed s = [] /\ cleanups s = [].
Proof.
  apply (createMediaQuery_static_without_watch (browser (matching [])) (matching []) []
           "(max-width: 767px)" None [Mount; Change 0 true]).
  - reflexivity.
  - reflexivity.
Defined.

(** X4: disposing the scope of a watching media query removes its one
    listener, once; from then on the accessor keeps the value it had at
    disposal, whatever the handle reports. *)
Theorem createMediaQuery_dispose_stops env eval h0 query fallbackState watchChange
    evs evs' :
  isServer env = false ->
  matchMedia env = Some eval ->
  hasOwner env = true ->
  watchChange <> Some false ->
  Dispose ∉ evs ->
  exists a s q,
    observe_media_query env query fallbackState watchChange (evs ++ Dispose :: evs')
      (initial h0) = Return a s
    /\ read_accessor a s = Return (latest 0 evs (eval query)) s
    /\ mqls s = [q]
    /\ mql_matches q = latest 0 (evs ++ Dispose :: evs') (eval query)
    /\ mql_listeners q = []
    /\ removed s = added s
    /\ length (removed s) = 1
    /\ cleanups s = [].
Proof.
  intros Hsrv Hmm Hown Hw Hd.
  set (a0 := mq_init env eval query watchChange).
  assert (mq_phase a0 = MqWatching) as Hp0.
  { unfold a0, mq_init. simpl. rewrite Hown. by destruct watchChange as [[]|]. }
  destruct (mq_run_listening evs a0) as [Hp Hs]; [done|by right|].
  rewrite Hp0 in Hp.
  set (a1 := mq_run evs a0) in *.
  set (a2 := mq_step Dispose a1).
  assert (mq_phase a2 = MqDisposed /\ mq_signal a2 = mq_signal a1) as [Hp2 Hs2].
  { unfold a2. simpl. by rewrite Hp. }
  destruct (mq_run_not_listening evs' a2) as [Hp3 Hs3]; [by rewrite Hp2|].
  pose proof (mq_run_handle (evs ++ Dispose :: evs') a0) as Hh.
  pose proof (mq_run_handle evs a0) as Hh1. fold a1 in Hh1.
  eexists _, _, _. split; [by eapply observe_media_query_browser|].
  fold a0. rewrite mq_run_app. fold a1.
  change (mq_run (Dispose :: evs') a1) with (mq_run evs' a2).
  rewrite mq_run_app in Hh. fold a1 in Hh.
  change (mq_run (Dispose :: evs') a1) with (mq_run evs' a2) in Hh.
  simpl. rewrite Hp3, Hp2. simpl. split_and!; try done.
  by rewrite Hs3, Hs2, Hs, Hh1.
Qed.

Lemma createMediaQuery_dispose_stops_witness :
  exists a s q,
    observe_media_query (browser (matching [])) "(max-width: 767px)" None None
      ([Mount; Change 0 true] ++ Dispose :: [Change 0 false]) (initial [])
    = Return a s
    /\ read_accessor a s
       = Return (latest 0 [Mount; Change 0 true] (matching [] "(max-width: 767px)")) s
    /\ mqls s = [q]
    /\ mql_matches q
       = latest 0 ([Mount; Change 0 true] ++ Dispose :: [Change 0 false])
           (matching [] "(max-width: 767px)")
    /\ mql_listeners q = []
    /\ removed s = added s
    /\ length (removed s) = 1
    /\ cleanups s = [].
Proof.
  apply (createMediaQuery_dispose_stops (browser (matching [])) (matching []) []
           "(max-width: 767px)" None None [Mount; Change 0 true] [Change 0 false]).
  - reflexivity.
  - reflexivity.
  - reflexivity.
  - discriminate.
  - refine (bool_decide_unpack (Dispose ∉ [Mount; Change 0 true]) _).
    vm_compute. exact I.
Defined.

(** X5: called outside any reactive scope, a watching
    [createMediaQuery] registers its listener and no cleanup: no event,
    disposal of a scope included, removes the listener, and the accessor
    goes on following the handle. *)
Theorem createMediaQuery_leaks_without_owner env eval h0 query fallbackState
    watchChange evs :
  isServer env = false ->
  matchMedia env = Some eval ->
  hasOwner env = false ->
  watchChange <> Some false ->
  exists a s0 s q,
    Index.createMediaQuery env query fallbackState watchChange (initial h0)
    = Return a s0
    /\ cleanups s0 = []
    /\ run_events evs s0 = Return tt s
    /\ read_accessor a s = Return (latest 0 evs (eval query)) s
    /\ mqls s = [q]
    /\ mql_listeners q = [mq_listener]
    /\ added s = [(0, mq_listener)]
    /\ removed s = []
    /\ cleanups s = [].
Proof.
  intros Hsrv Hmm Hown Hw.
  set (a0 := mq_init env eval query watchChange).
  assert (mq_phase a0 = MqLeaking) as Hp0.
  { unfold a0, mq_init. simpl. rewrite Hown. by destruct watchChange as [[]|]. }
  destruct (mq_run_listening evs a0) as [Hp Hs]; [done|by left|].
  rewrite Hp0 in Hp.
  pose proof (mq_run_handle evs a0) as Hh.
  exists (SignalAccessor 0), (mq_observed h0 query a0),
    (mq_observed h0 query (mq_run evs a0)). eexists.
  split; [by eapply createMediaQuery_browser|].
  split.
  { change (match mq_phase a0 with
            | MqWatching => [RemoveListener (VMql 0) mq_listener]
            | _ => []
            end = []).
    by rewrite Hp0. }
  split; [apply mq_run_observed|].
  simpl. rewrite Hp. simpl. split_and!; try done. by rewrite Hs, Hh.
Qed.

Lemma createMediaQuery_leaks_without_owner_witness :
  exists a s0 s q,
    Index.createMediaQuery (browser_without_owner (matching [])) "(max-width: 767px)"
      None None (initial []) = Return a s0
    /\ cleanups s0 = []
    /\ run_events [Mount; Dispose; Change 0 true] s0 = Return tt s
    /\ read_accessor a s
       = Return (latest 0 [Mount; Dispose; Change 0 true]
                   (matching [] "(max-width: 767px)")) s
    /\ mqls s = [q]
    /\ mql_listeners q = [mq_listener]
    /\ added s = [(0, mq_listener)]
    /\ removed s = []
    /\ cleanups s = [].
Proof.
  apply (createMediaQuery_leaks_without_owner (browser_without_owner (matching []))
           (matching []) [] "(max-width: 767px)" None None
           [Mount; Dispose; Change 0 true]).
  - reflexivity.
  - reflexivity.
  - reflexivity.
  - discriminate.
Defined.

(** ** [createBreakpoints] over its lifetime *)

Lemma observer_run_snoc options qs evs e a :
  observer_run options qs (evs ++ [e]) a
  = observer_step options qs e (observer_run options qs evs a).
Proof. unfold observer_run. by rewrite foldl_app. Qed.

Lemma observer_run_app options qs evs1 evs2 a :
  observer_run options qs (evs1 ++ evs2) a
  = observer_run options qs evs2 (observer_run options qs evs1 a).
Proof. unfold observer_run. apply foldl_app. Qed.






(** Before the effect has run, and once the observer is idle, the store
    is not written. *)
Lemma observer_run_not_watching options qs evs : forall a,
  is_watching (phase a) = false ->
  Mount ∉ evs \/ phase a <> Unmounted ->
  is_watching (phase (observer_run options qs evs a)) = false
  /\ mapping (observer_run options qs evs a) = mapping a.
Proof.
  induction evs as [|e evs IH]; intros a Hp Hm; [done|].
  change (observer_run options qs (e :: evs) a)
    with (observer_run options qs evs (observer_step options qs e a)).
  assert (is_watching (phase (observer_step options qs e a)) = false
          /\ mapping (observer_step options qs e a) = mapping a
          /\ (Mount ∉ evs \/ phase (observer_step options qs e a) <> Unmounted))
    as (H1 & H2 & H3).
  { destruct a as [p bs mo]. simpl in *. destruct e as [|h b|]; simpl.
    - destruct Hm as [Hm|Hm].
      + exfalso. apply Hm. by left.
      + destruct p; try done; split_and!; try done; by right.
    - destruct (qs !! h) as [[k q]|]; simpl.
      + rewrite Hp. split_and!; try done.
        destruct Hm as [Hm|Hm]; [left|by right].
        intros Hin. apply Hm. by right.
      + split_and!; try done.
        destruct Hm as [Hm|Hm]; [left|by right].
        intros Hin. apply Hm. by right.
    - destruct p; try done; split_and!; try done; by right. }
  destruct (IH _ H1 H3) as [? ?]. split; congruence.
Qed.



Lemma supported_cases env :
  Index.checkMqSupported env = true ->
  isServer env = false /\ exists eval, matchMedia env = Some eval.
Proof.
  unfold Index.checkMqSupported. intros Hsup.
  destruct (isServer env); [done|]. split; [done|].
  destruct (matchMedia env) as [eval|]; [by eexists|].
  rewrite bool_decide_false in Hsup; [done|]. by intros [? ?].
Qed.

(** X6: an empty breakpoint set gives an empty mapping and nothing else:
    no query is made, no handle exists and no listener is ever registered,
    on any platform, provided that the facility is there or no fallback is
    supplied (a supplied fallback is returned as it is). *)
Theorem createBreakpoints_empty env h0 breakpoints options evs :
  h0 !! breakpoints = Some [] ->
  Index.checkMqSupported env = true \/ fallbackMatch options = None ->
  exists r s,
    observe_breakpoints env breakpoints options evs (initial h0) = Return r s
    /\ read_obj s r = Some []
    /\ matchMedia_calls s = []
    /\ mqls s = []
    /\ added s = []
    /\ removed s = [].
Proof.
  intros Hbp Hcase.
  assert (h0 !! breakpoints = Some (breakpoints_obj [])) as Hbp' by done.
  assert (wf_obj ([] : list (string * string))) as Hwf by constructor.
  destruct (Index.checkMqSupported env) eqn:Hsup.
  - destruct (supported_cases env Hsup) as [Hsrv [eval Hmm]].
    assert (forall a, mapping a = [] ->
              mapping (observer_run options [] evs a) = []
              /\ current (observer_run options [] evs a) = current a) as Hrun.
    { induction evs as [|e evs IH] using rev_ind; intros a Ha; [done|].
      rewrite observer_run_snoc. destruct (IH a Ha) as [IH1 IH2].
      destruct e as [|h b|]; simpl; try done;
        by destruct (phase (observer_run options [] evs a)). }
    destruct (Hrun (observer_init eval []) eq_refl) as [Hmo Hcur].
    eexists _, _. split; [by eapply observe_breakpoints_supported|].
    change (queries_of options []) with ([] : list (string * string)).
    split; [by rewrite <- Hmo; apply observed_heap_store|].
    simpl. split_and!; try done.
    + by destruct (was_watching _).
    + by destruct (phase _).
  - destruct Hcase as [?|HF]; [done|].
    destruct (initial_inert
                (h0 ++ [[]; all_false (settable_keys (obj_keys (entries
                                         ([] : list (string * string)))))])
                [WatchBreakpoints options false (length h0) (S (length h0))])
      with (evs := evs) as [effs' Hrun]; [by repeat constructor|].
    unfold observe_breakpoints. eexists _, _. split.
    { erewrite bind_Return;
        [|by eapply (createBreakpoints_unsupported_empty _ _ _ [])].
      erewrite bind_Return; [|exact Hrun]. reflexivity. }
    split_and!; try done.
    unfold read_obj. simpl. rewrite lookup_app_r by lia.
    by replace (S (length h0) - length h0) with 1 by lia.
Qed.

Lemma createBreakpoints_empty_witness :
  exists r s,
    observe_breakpoints (browser (matching [])) 0 no_options [Mount; Change 0 true; Dispose]
      (initial [[]]) = Return r s
    /\ read_obj s r = Some []
    /\ matchMedia_calls s = []
    /\ mqls s = []
    /\ added s = []
    /\ removed s = [].
Proof.
  apply (createBreakpoints_empty (browser (matching [])) [[]] 0 no_options
           [Mount; Change 0 true; Dispose]).
  - reflexivity.
  - left. reflexivity.
Defined.

(** X7: [createBreakpoints] and everything its listeners do later leave
    the caller's objects alone: every object that was on the page before
    the call, the breakpoint set among them, has the contents it had, on
    any platform and after any events.  With the facility, or without a
    fallback, the mapping returned is a new object. *)
Theorem createBreakpoints_keeps_callers_objects env h0 breakpoints B options evs :
  h0 !! breakpoints = Some (breakpoints_obj B) ->
  wf_obj B ->
  exists r s,
    observe_breakpoints env breakpoints options evs (initial h0) = Return r s
    /\ (forall r' : nat, r' < length h0 -> read_obj s r' = h0 !! r')
    /\ read_obj s breakpoints = Some (breakpoints_obj B)
    /\ (Index.checkMqSupported env = true \/ fallbackMatch options = None ->
        length h0 < r).
Proof.
  intros Hbp Hwf.
  assert (forall (s : State) tl, heap s = h0 ++ tl ->
            (forall r' : nat, r' < length h0 -> read_obj s r' = h0 !! r')
            /\ read_obj s breakpoints = Some (breakpoints_obj B)) as Hframe.
  { intros s tl Hs. unfold read_obj. rewrite Hs. split.
    - intros r' Hr'. by rewrite lookup_app_l.
    - rewrite lookup_app_l; [done|]. by eapply lookup_lt_Some. }
  destruct (Index.checkMqSupported env) eqn:Hsup.
  - destruct (supported_cases env Hsup) as [Hsrv [eval Hmm]].
    eexists _, _. split; [by eapply observe_breakpoints_supported|].
    destruct (Hframe (observed h0 options (queries_of options B)
                        (observer_run options (queries_of options B) evs
                           (observer_init eval (queries_of options B)))) _ eq_refl)
      as [H1 H2].
    split_and!; [done|done|]. intros _. lia.
  - unfold observe_breakpoints. destruct (fallbackMatch options) as [F|] eqn:HFo.
    + destruct (initial_inert (h0 ++ [[]])
                  [WatchBreakpoints options false (length h0) F]) with (evs := evs)
        as [effs' Hrun]; [by repeat constructor|].
      eexists _, _. split.
      { erewrite bind_Return; [|by apply createBreakpoints_unsupported_fallback].
        erewrite bind_Return; [|exact Hrun]. reflexivity. }
      destruct (Hframe (set_effects (set_heap (initial (h0 ++ [[]])) (h0 ++ [[]])) effs')
                  _ eq_refl) as [H1 H2].
      split_and!; [done|done|]. by intros [?|?].
    + destruct (initial_inert
                  (h0 ++ [[]; all_false (settable_keys (obj_keys (entries B)))])
                  [WatchBreakpoints options false (length h0) (S (length h0))])
        with (evs := evs) as [effs' Hrun]; [by repeat constructor|].
      eexists _, _. split.
      { erewrite bind_Return; [|by eapply createBreakpoints_unsupported_empty].
        erewrite bind_Return; [|exact Hrun]. reflexivity. }
      set (e := all_false (settable_keys (obj_keys (entries B)))).
      destruct (Hframe (set_effects
                          (set_heap (initial (h0 ++ [[]; e])) (h0 ++ [[]; e])) effs')
                  _ eq_refl) as [H1 H2].
      split_and!; [done|done|]. intros _. lia.
Qed.

Lemma createBreakpoints_keeps_callers_objects_witness :
  exists r s,
    observe_breakpoints (browser (matching [])) 0 (mkOptions None None (Some 1))
      [Mount; Change 0 true; Change 2 true] (initial test_heap) = Return r s
    /\ (forall r' : nat, r' < length test_heap -> read_obj s r' = test_heap !! r')
    /\ read_obj s 0 = Some (breakpoints_obj test_breakpoints)
    /\ (Index.checkMqSupported (browser (matching [])) = true
        \/ fallbackMatch (mkOptions None None (Some 1)) = None ->
        length test_heap < r).
Proof.
  apply (createBreakpoints_keeps_callers_objects (browser (matching [])) test_heap 0
           test_breakpoints (mkOptions None None (Some 1))
           [Mount; Change 0 true; Change 2 true]).
  - reflexivity.
  - refine (bool_decide_unpack (wf_obj test_breakpoints) _). vm_compute. exact I.
Defined.



(** X9: once the scope has been disposed the mapping is frozen: it keeps
    the contents it had at disposal, whatever the handles report later and
    whatever else happens, and no handle carries a listener. *)
Theorem createBreakpoints_frozen_after_dispose env eval h0 breakpoints B options
    evs evs' :
  isServer env = false ->
  matchMedia env = Some eval ->
  h0 !! breakpoints = Some (breakpoints_obj B) ->
  wf_obj B ->
  exists r s s' mo,
    observe_breakpoints env breakpoints options evs (initial h0) = Return r s
    /\ observe_breakpoints env breakpoints options (evs ++ Dispose :: evs') (initial h0)
       = Return r s'
    /\ read_obj s r = Some mo
    /\ read_obj s' r = Some mo
    /\ Forall (fun q => mql_listeners q = []) (mqls s').
Proof.
  intros Hsrv Hmm Hbp Hwf.
  set (qs := queries_of options B).
  set (a1 := observer_run options qs evs (observer_init eval qs)).
  set (a2 := observer_step options qs Dispose a1).
  assert (is_watching (phase a2) = false /\ phase a2 <> Unmounted
          /\ mapping a2 = mapping a1) as (Hp2 & Hq2 & Hm2).
  { unfold a2. generalize a1. intros [p bs mo]. simpl. by destruct p. }
  destruct (observer_run_not_watching options qs evs' a2 Hp2) as [Hp3 Hm3];
    [by right|].
  exists (S (length h0)), (observed h0 options qs a1),
    (observed h0 options qs (observer_run options qs evs' a2)), (mapping a1).
  split_and!.
  - by eapply observe_breakpoints_supported.
  - erewrite observe_breakpoints_supported by done.
    by rewrite observer_run_app.
  - apply observed_heap_store.
  - rewrite <- Hm2, <- Hm3. apply observed_heap_store.
  - simpl. rewrite Hp3. apply handles_from_unwatched.
Qed.

Lemma createBreakpoints_frozen_after_dispose_witness :
  exists r s s' mo,
    observe_breakpoints (browser (matching [])) 0 no_options [Mount; Change 0 true]
      (initial [breakpoints_obj test_breakpoints]) = Return r s
    /\ observe_breakpoints (browser (matching [])) 0 no_options
         ([Mount; Change 0 true] ++ Dispose :: [Change 0 false; Change 1 true; Mount])
         (initial [breakpoints_obj test_breakpoints]) = Return r s'
    /\ read_obj s r = Some mo
    /\ read_obj s' r = Some mo
    /\ Forall (fun q => mql_listeners q = []) (mqls s').
Proof.
  apply (createBreakpoints_frozen_after_dispose (browser (matching [])) (matching [])
           [breakpoints_obj test_breakpoints] 0 test_breakpoints no_options
           [Mount; Change 0 true] [Change 0 false; Change 1 true; Mount]).
  - reflexivity.
  - reflexivity.
  - reflexivity.
  - refine (bool_decide_unpack (wf_obj test_breakpoints) _). vm_compute. exact I.
Defined.







(** ** common.ts *)

(** X13: every call of [getEmptyMatchesFromBreakpoints] makes an object
    of its own: two calls on the same breakpoint set return different
    objects with the same all-false contents (over the keys of the set
    other than ["__proto__"]), and writing to one of them changes neither
    the other nor the breakpoint set. *)
Theorem getEmptyMatchesFromBreakpoints_fresh s breakpoints B k v :
  heap s !! breakpoints = Some (breakpoints_obj B) ->
  wf_obj B ->
  exists r1 r2 s' e,
    (do m1 <- getEmptyMatchesFromBreakpoints breakpoints;
     do m2 <- getEmptyMatchesFromBreakpoints breakpoints;
     do _ <- set_prop m1 k v;
     ret (m1, m2)) s = Return (r1, r2) s'
    /\ r1 <> r2
    /\ obj_keys e ≡ₚ settable_keys (obj_keys B)
    /\ Forall (fun kv => kv.2 = VBool false) e
    /\ read_obj s' r1 = Some (obj_set e k v)
    /\ read_obj s' r2 = Some e
    /\ read_obj s' breakpoints = Some (breakpoints_obj B).
Proof.
  intros Hbp Hwf.
  pose proof (lookup_lt_Some _ _ _ Hbp) as Hlt.
  set (e := all_false (settable_keys (obj_keys (entries B)))).
  exists (length (heap s)), (S (length (heap s))),
    (set_heap s (heap s ++ [obj_set e k v; e])), e.
  split_and!.
  - erewrite bind_Return.
    2:{ rewrite (getEmptyMatchesFromBreakpoints_Return _ _ (breakpoints_obj B));
          [|done|by apply breakpoints_obj_wf].
        by rewrite all_false_entries. }
    erewrite bind_Return.
    2:{ rewrite (getEmptyMatchesFromBreakpoints_Return _ _ (breakpoints_obj B)).
        - by rewrite all_false_entries.
        - simpl. by rewrite lookup_app_l.
        - by apply breakpoints_obj_wf. }
    fold e. simpl. rewrite length_app. simpl. rewrite Nat.add_1_r.
    erewrite bind_Return.
    2:{ apply set_prop_Return. simpl. rewrite <- app_assoc. simpl.
        by rewrite list_lookup_middle. }
    unfold ret. simpl. f_equal. unfold set_heap. simpl. f_equal.
    rewrite <- app_assoc. simpl.
    rewrite (insert_app_r_alt _ _ (length (heap s))) by done.
    by rewrite Nat.sub_diag.
  - lia.
  - apply all_false_settable_perm.
  - apply all_false_Forall.
  - unfold read_obj. simpl. by rewrite list_lookup_middle.
  - unfold read_obj. simpl. rewrite lookup_app_r by lia.
    by replace (S (length (heap s)) - length (heap s)) with 1 by lia.
  - unfold read_obj. simpl. by rewrite lookup_app_l.
Qed.

Lemma getEmptyMatchesFromBreakpoints_fresh_witness :
  exists r1 r2 s' e,
    (do m1 <- getEmptyMatchesFromBreakpoints 0;
     do m2 <- getEmptyMatchesFromBreakpoints 0;
     do _ <- set_prop m1 "sm" (VBool true);
     ret (m1, m2)) (initial [breakpoints_obj test_breakpoints]) = Return (r1, r2) s'
    /\ r1 <> r2
    /\ obj_keys e ≡ₚ settable_keys (obj_keys test_breakpoints)
    /\ Forall (fun kv => kv.2 = VBool false) e
    /\ read_obj s' r1 = Some (obj_set e "sm" (VBool true))
    /\ read_obj s' r2 = Some e
    /\ read_obj s' 0 = Some (breakpoints_obj test_breakpoints).
Proof.
  apply (getEmptyMatchesFromBreakpoints_fresh (initial [breakpoints_obj test_breakpoints])
           0 test_breakpoints "sm" (VBool true)).
  - reflexivity.
  - refine (bool_decide_unpack (wf_obj test_breakpoints) _). vm_compute. exact I.
Defined.

Lemma named_props_tagged {V} (l : list (N * (string * V))) :
  Forall (fun x => array_index x.2.1 = Some x.1) l -> named_props l.*2 = [].
Proof.
  unfold named_props. induction 1 as [|[n [k v]] l Hx _ IH]; [done|].
  simpl in *. unfold is_named at 1. rewrite Hx. exact IH.
Qed.

Lemma named_props_idem {V} (o : JsObject V) : named_props (named_props o) = named_props o.
Proof.
  unfold named_props. induction o as [|[k v] o IH]; [done|].
  simpl. destruct (is_named k) eqn:Hk; simpl; [|done]. by rewrite Hk, IH.
Qed.

(** X14: [entries] lists every property of an object once; the keys that
    are array indices come first, in ascending order, and the other keys
    follow in the order in which they were created; listing a listing
    again changes nothing. *)
Theorem entries_enumeration {V} (o : JsObject V) :
  entries o ≡ₚ o
  /\ keys_ordered (obj_keys (entries o))
  /\ named_props (entries o) = named_props o
  /\ entries (entries o) = entries o.
Proof.
  split_and!.
  - apply entries_perm.
  - apply entries_ordered.
  - unfold entries at 1. unfold named_props at 1. rewrite List.filter_app.
    fold (named_props (sort_index (index_props o)).*2).
    fold (named_props (named_props o)).
    rewrite named_props_tagged, named_props_idem; [done|].
    rewrite sort_index_perm. apply index_props_tagged.
  - apply entries_of_ordered, entries_ordered.
Qed.

(** ** The guarded paths of [createMediaQuery] *)

Lemma createMediaQuery_without_matchMedia_witness :
  Index.createMediaQuery no_matchMedia "(max-width: 767px)" (Some true) None (initial [])
  = Throw TypeError.
Proof.
  apply (createMediaQuery_without_matchMedia no_matchMedia "(max-width: 767px)"
           (Some true) None (initial [])).
  - reflexivity.
  - reflexivity.
Defined.

Lemma createMediaQuery_on_server_witness :
  exists a s s',
    Index.createMediaQuery server "(max-width: 767px)" (Some true) None (initial [])
    = Return a s
    /\ run_events [Mount; Change 0 false; Dispose] s = Return tt s'
    /\ read_accessor a s = Return true s
    /\ read_accessor a s' = Return true s'
    /\ matchMedia_calls s' = [] /\ mqls s' = [] /\ added s' = [].
Proof.
  apply (createMediaQuery_on_server server [] "(max-width: 767px)" (Some true) None
           [Mount; Change 0 false; Dispose]).
  reflexivity.
Defined.

(** ** Unknown responsive modes *)


